(** * stopwords: the Python stop-word filter and the data generator

    A shallow embedding of [tests/stopwords_python.py] (loader, filter,
    counter) and of [generate-stopwords-data.py] (the generator), with the
    properties of the specification proved about them.

    Python values are modelled as follows.
    - A [str] is a list of Unicode code points ([N]).
    - A [Set[str]] is a [gset], a [Dict[str, int]] a [gmap] to [nat].
    - An exception is a value of [exn]; a call that may raise returns a
      [result].
    - The file system is a finite map from paths to entries: a text file
      with its decoded content, or something that cannot be read as text
      and makes [open] or the decoder raise. *)

From Stdlib Require Import NArith Strings.String Strings.Ascii.
From Stdlib Require Import Numbers.DecimalString.
From stdpp Require Import base list sorting gmap fin_maps.

Local Open Scope N_scope.

Abbreviation char := N (only parsing).
Abbreviation str := (list N) (only parsing).

(** Reading an ASCII literal as a Python [str]. *)
Definition py (s : string) : str :=
  map N_of_ascii (list_ascii_of_string s).

(** ** The Unicode character database

    [str.lower], [str.split], [str.strip] and the [re] classes [\w] and [\s]
    consult the interpreter's Unicode tables.  Their ASCII part is written out
    below; the part above U+007F is a parameter of the development. *)

Class UnicodeData := {
  (** [Py_UNICODE_ISALNUM] above U+007F *)
  ucd_isalnum : char -> bool;
  (** [Py_UNICODE_ISSPACE] above U+007F *)
  ucd_isspace : char -> bool;
  (** [lower_ucs4] above U+007F: the full lower-case mapping of the
      character at an index of a string (final sigma looks at its context) *)
  ucd_lower : str -> nat -> char -> str
}.

(** The tables of an interpreter that knows no character above U+007F. *)
Definition ascii_only : UnicodeData := {|
  ucd_isalnum := fun _ => false;
  ucd_isspace := fun _ => false;
  ucd_lower := fun _ _ c => [c]
|}.

Definition is_ascii (c : char) : bool := c <? 128.

Definition ascii_isalnum (c : char) : bool :=
  ((48 <=? c) && (c <=? 57)) || ((65 <=? c) && (c <=? 90))
  || ((97 <=? c) && (c <=? 122)).

(** TAB, LF, VT, FF, CR, the separators FS GS RS US, and SPACE. *)
Definition ascii_isspace (c : char) : bool :=
  ((9 <=? c) && (c <=? 13)) || ((28 <=? c) && (c <=? 32)).

Definition ascii_lower (c : char) : char :=
  if (65 <=? c) && (c <=? 90) then c + 32 else c.

Definition SPACE : char := 32.
Definition NEWLINE : char := 10.
Definition RETURN : char := 13.
Definition APOSTROPHE : char := 39.
Definition UNDERSCORE : char := 95.
Definition LETTER_s : char := 115.
Definition SLASH : char := 47.

Section Text.
Context {U : UnicodeData}.

Definition isalnum (c : char) : bool :=
  if is_ascii c then ascii_isalnum c else ucd_isalnum c.

(** [str.isspace] on one character; also the class [\s] of [re]. *)
Definition isspace (c : char) : bool :=
  if is_ascii c then ascii_isspace c else ucd_isspace c.

(** The class [\w] of [re] on a [str] pattern. *)
Definition is_word (c : char) : bool := isalnum c || (c =? UNDERSCORE).

(** [str.lower()]: every character is mapped in turn. *)
Definition lower (s : str) : str :=
  concat (imap (fun i c =>
                  if is_ascii c then [ascii_lower c] else ucd_lower s i c) s).

(** [str.split()] with no separator: the maximal runs of characters that
    are not whitespace.  [split_scan s] is the run [s] starts with and the
    tokens after it. *)
Definition push_token (t : str) (ts : list str) : list str :=
  match t with [] => ts | _ => t :: ts end.

Fixpoint split_scan (s : str) : str * list str :=
  match s with
  | [] => ([], [])
  | c :: s' =>
      let '(t, ts) := split_scan s' in
      if isspace c then ([], push_token t ts) else (c :: t, ts)
  end.

Definition split (s : str) : list str :=
  let '(t, ts) := split_scan s in push_token t ts.

(** [str.strip()] with no argument. *)
Fixpoint lstrip (s : str) : str :=
  match s with
  | [] => []
  | c :: s' => if isspace c then lstrip s' else s
  end.

Definition rstrip (s : str) : str := reverse (lstrip (reverse s)).

Definition strip (s : str) : str := rstrip (lstrip s).

(** [\b] of [re] between two neighbouring characters ([None] at either
    end of the string): exactly one side is a word character. *)
Definition word_char_at (c : option char) : bool :=
  match c with Some c => is_word c | None => false end.

Definition word_boundary (before after : option char) : bool :=
  xorb (word_char_at before) (word_char_at after).

(** [re.sub(r"'s\b", ' ', s)]: the text is scanned from the left; where
    the pattern matches, the match is replaced and the scan goes on after
    it, elsewhere the character is copied. *)
Fixpoint sub_possessive (s : str) : str :=
  match s with
  | [] => []
  | c :: s' =>
      match s' with
      | c' :: s'' =>
          if (c =? APOSTROPHE) && (c' =? LETTER_s)
             && word_boundary (Some c') (head s'')
          then SPACE :: sub_possessive s''
          else c :: sub_possessive s'
      | [] => [c]
      end
  end.

(** [re.sub(r'[^\w\s]', ' ', s)] *)
Definition sub_punctuation (s : str) : str :=
  map (fun c => if negb (is_word c || isspace c) then SPACE else c) s.

End Text.

Local Close Scope N_scope.

(** ** Exceptions and results *)

Inductive exn_class :=
  | LookupError | KeyError | IndexError
  | OSError | FileNotFoundError | PermissionError | IsADirectoryError
  | ValueError | UnicodeDecodeError | RuntimeError.

(** [issubclass(c, LookupError)] *)
Definition is_LookupError (c : exn_class) : bool :=
  match c with
  | LookupError | KeyError | IndexError => true
  | _ => false
  end.

(** An exception object: its class and the text [str(e)] gives. *)
Record exn := Exn { exn_cls : exn_class; exn_str : str }.

Inductive result (A : Type) :=
  | Ok (a : A)
  | Raise (e : exn).
Arguments Ok {A} a.
Arguments Raise {A} e.

#[global] Instance result_ret : MRet result := fun A a => Ok a.
#[global] Instance result_bind : MBind result := fun A B f r =>
  match r with
  | Ok a => f a
  | Raise e => Raise e
  end.

(** ** Paths and the file system *)

Definition starts_with_sep (p : str) : bool :=
  match p with c :: _ => N.eqb c SLASH | [] => false end.

Definition ends_with_sep (p : str) : bool :=
  match last p with Some c => N.eqb c SLASH | None => false end.

(** One step of [os.path.join] (posixpath): an absolute component discards
    what precedes it, otherwise a separator is put in unless one is there. *)
Definition path_join (a b : str) : str :=
  if starts_with_sep b then b
  else if bool_decide (a = []) || ends_with_sep a then a ++ b
  else a ++ SLASH :: b.

(** What a path names: a text file, given by its decoded content, or
    something that cannot be read as text, given by the exception that
    [open(path, 'r')] or the UTF-8 decoder raises on it (a directory, a file
    without read permission, bytes that are not UTF-8). *)
Inductive entry :=
  | TextFile (content : str)
  | Unreadable (e : exn).

(** The file system: what there is, by path. *)
Abbreviation filesystem := (gmap (list N) entry) (only parsing).

(** Reading a text file with universal newlines: [\r\n] and [\r] arrive as
    [\n]. *)
Fixpoint translate_newlines (s : str) : str :=
  match s with
  | [] => []
  | c :: s' =>
      if N.eqb c RETURN then
        NEWLINE :: match s' with
                   | c' :: s'' =>
                       if N.eqb c' NEWLINE then translate_newlines s''
                       else translate_newlines s'
                   | [] => []
                   end
      else c :: translate_newlines s'
  end.

(** Cutting a text after every [\n]; the lines keep their terminator. *)
Fixpoint cut_lines (s : str) : list str :=
  match s with
  | [] => []
  | c :: s' =>
      if N.eqb c NEWLINE then [c] :: cut_lines s'
      else match cut_lines s' with
           | [] => [[c]]
           | l :: ls => (c :: l) :: ls
           end
  end.

(** [for line in f] on a file opened with [open(path, 'r')]. *)
Definition readlines (content : str) : list str :=
  cut_lines (translate_newlines content).

(** ** tests/stopwords_python.py *)

(** [counts[word] = counts.get(word, 0) + 1] *)
Definition count_up (counts : gmap (list N) nat) (word : str)
  : gmap (list N) nat :=
  <[word := default 0 (counts !! word) + 1]> counts.

Section Filter.
Context {U : UnicodeData}.
(** [os.path.dirname(os.path.dirname(os.path.abspath(__file__)))] *)
Context (script_dir : str).

Definition data_file (language : str) : str :=
  path_join (path_join script_dir (py "data")) (language ++ py ".txt").

Definition load_stopwords (fs : filesystem) (language : str)
  : result (gset (list N)) :=
  let data_file := data_file language in
  match fs !! data_file with
  | None =>
      Raise (Exn FileNotFoundError
                 (py "Stopwords file not found: " ++ data_file))
  | Some (Unreadable e) => Raise e
  | Some (TextFile content) =>
      Ok (foldl (fun stopwords line => {[ lower (strip line) ]} ∪ stopwords)
                ∅ (readlines content))
  end.

(** The truth value of [word and word not in stopwords]. *)
Definition kept (stopwords : gset (list N)) (word : str) : Prop :=
  word ≠ [] ∧ word ∉ stopwords.

#[global] Instance kept_dec stopwords word : Decision (kept stopwords word).
Proof. unfold kept. apply _. Defined.

Definition filter_stopwords (fs : filesystem) (text language : str)
    (keep_punctuation : bool) : result (list str) :=
  stopwords ← load_stopwords fs language;
  let lower_text := lower text in
  let words :=
    if keep_punctuation then
      split lower_text
    else
      let lower_text := sub_possessive lower_text in
      let lower_text := sub_punctuation lower_text in
      split lower_text in
  mret (filter (kept stopwords) words).

Definition count_words (fs : filesystem) (text language : str)
    (keep_punctuation : bool) : result (gmap (list N) nat) :=
  stopwords ← load_stopwords fs language;
  let lower_text := lower text in
  let words :=
    if keep_punctuation then
      split lower_text
    else
      let lower_text := sub_possessive lower_text in
      let lower_text := sub_punctuation lower_text in
      split lower_text in
  mret (foldl (fun counts word =>
                 if decide (kept stopwords word)
                 then count_up counts word
                 else counts)
              ∅ words).

End Filter.

(** ** generate-stopwords-data.py *)

(** Comparison of two [str]: code point by code point, a proper prefix
    first. *)
Fixpoint str_leb (s t : str) : bool :=
  match s, t with
  | [], _ => true
  | _ :: _, [] => false
  | a :: s', b :: t' => N.ltb a b || (N.eqb a b && str_leb s' t')
  end.

Definition str_le (s t : str) : Prop := str_leb s t = true.

#[global] Instance str_le_dec s t : Decision (str_le s t).
Proof. unfold str_le. apply _. Defined.

(** [sorted(l)] on a list of [str]. *)
Definition sorted (l : list str) : list str := merge_sort str_le l.

(** [sep.join(l)] *)
Fixpoint join_with (sep : str) (l : list str) : str :=
  match l with
  | [] => []
  | [x] => x
  | x :: l' => x ++ sep ++ join_with sep l'
  end.

(** [str(n)] for a length. *)
Definition decimal (n : nat) : str :=
  py (NilZero.string_of_uint (Nat.to_uint n)).

(** What the script sees of the outside: the NLTK corpus reader and the
    failures of the two file-system calls that can fail. *)
Record world := {
  (** [stopwords.fileids()]: the corpus is looked up on first use and a
      missing corpus raises [LookupError] *)
  nltk_fileids : result (list str);
  (** [stopwords.words(language)] *)
  nltk_words : str -> result (list str);
  (** the exception [os.makedirs(path, exist_ok=True)] raises, if any *)
  os_makedirs : str -> option exn;
  (** the exception [open(path, 'w')] raises, if any *)
  os_open : str -> option exn
}.

(** The state a run changes: the files, and the two output streams. *)
Record process := {
  files : gmap (list N) entry;
  stdout : str;
  stderr : str
}.

(** Commands: they change the process and return or raise. *)
Definition io (A : Type) : Type := process -> result A * process.

#[global] Instance io_ret : MRet io := fun A a p => (Ok a, p).
#[global] Instance io_bind : MBind io := fun A B f m p =>
  match m p with
  | (Ok a, p') => f a p'
  | (Raise e, p') => (Raise e, p')
  end.

Definition lift {A} (r : result A) : io A := fun p => (r, p).

Definition raise_if (e : option exn) : io unit :=
  match e with
  | Some e => lift (Raise e)
  | None => mret ()
  end.

(** [print(s)]; a standard output that refuses the write is outside the
    model. *)
Definition print (s : str) : io unit := fun p =>
  (Ok (), {| files := files p;
             stdout := stdout p ++ s ++ [NEWLINE];
             stderr := stderr p |}).

(** [sys.stderr.write(s)] *)
Definition stderr_write (s : str) : io unit := fun p =>
  (Ok (), {| files := files p; stdout := stdout p; stderr := stderr p ++ s |}).

(** [open(path, 'w')]: the file is created or emptied, and is a text file
    from then on. *)
Definition open_w (w : world) (path : str) : io unit := fun p =>
  match os_open w path with
  | Some e => (Raise e, p)
  | None => (Ok (), {| files := <[path := TextFile []]> (files p);
                       stdout := stdout p;
                       stderr := stderr p |})
  end.

(** The text [s] put at the end of a text file. *)
Definition append_text (s : str) (x : entry) : entry :=
  match x with
  | TextFile content => TextFile (content ++ s)
  | Unreadable e => Unreadable e
  end.

(** [f.write(s)] on the file opened at [path]; a write or a close that
    raises (a full disk) is outside the model. *)
Definition file_write (path : str) (s : str) : io unit := fun p =>
  (Ok (), {| files := alter (append_text s) path (files p);
             stdout := stdout p;
             stderr := stderr p |}).

(** [for x in l: body(x)] *)
Fixpoint for_each {A} (body : A -> io unit) (l : list A) : io unit :=
  match l with
  | [] => mret ()
  | x :: l' => body x ≫= fun _ => for_each body l'
  end.

Section Generator.
(** [os.path.dirname(os.path.abspath(__file__))] *)
Context (script_dir : str).

Definition data_dir : str := path_join script_dir (py "data").

Definition output_file (language : str) : str :=
  path_join data_dir (language ++ py ".txt").

(** The body of the loop over the languages. *)
Definition generate_language (w : world) (language : str) : io unit :=
  let output_file := output_file language in
  words ← lift (nltk_words w language);
  _ ← open_w w output_file;
  _ ← for_each (fun word => file_write output_file (word ++ [NEWLINE]))
               (sorted words);
  print (py "  Created " ++ language ++ py ".txt ("
         ++ decimal (length words) ++ py " words)").

(** The body of the [try] statement. *)
Definition generate (w : world) : io unit :=
  _ ← raise_if (os_makedirs w data_dir);
  _ ← print (py "Creating stopwords data files in " ++ data_dir ++ py "/");
  languages ← lift (nltk_fileids w);
  _ ← for_each (generate_language w) (sorted languages);
  _ ← print ([NEWLINE] ++ py "Successfully generated "
             ++ decimal (length languages) ++ py " stopwords files.");
  print (py "Available languages: "
         ++ join_with (py ", ") (sorted languages)).

(** [main()]: the [try] statement with its two handlers; the second
    component is the exit status of the interpreter. *)
Definition main (w : world) (p : process) : process * nat :=
  match generate w p with
  | (Ok _, p') => (p', 0)
  | (Raise e, p') =>
      if is_LookupError (exn_cls e) then
        let '(_, p1) :=
          stderr_write (py "Error: NLTK stopwords corpus not found."
                        ++ [NEWLINE]) p' in
        let '(_, p2) :=
          stderr_write
            (py "Please download it with: python -m nltk.downloader stopwords"
             ++ [NEWLINE]) p1 in
        (p2, 1)
      else
        let '(_, p1) :=
          stderr_write (py "Error: " ++ exn_str e ++ [NEWLINE]) p' in
        (p1, 1)
  end.

End Generator.

(** ** tests/stopwords_python.py: the command line *)

Section CommandLine.
Context {U : UnicodeData}.
(** [os.path.dirname(os.path.dirname(os.path.abspath(__file__)))] *)
Context (script_dir : str).

(** [main()]: [argv] is [sys.argv], [stdin] what [sys.stdin.read()] gives.
    [filter_stopwords] is called with its defaults, and an exception it
    raises is not caught. *)
Definition cli_main (argv : list str) (stdin : str) : io unit := fun p =>
  let text :=
    if (length argv <? 2)%nat then stdin
    else join_with (py " ") (drop 1 argv) in
  match filter_stopwords script_dir (files p) text (py "english") false with
  | Raise e => (Raise e, p)
  | Ok filtered => print (join_with (py " ") filtered) p
  end.

End CommandLine.

(** * The vocabulary of the specification *)

(** Step 5 of the specification: the tokens are gone through in order; a
    token that is empty or in the stop-word set is dropped, any other is
    kept. *)
Fixpoint keep_tokens (stopwords : gset (list N)) (tokens : list str)
  : list str :=
  match tokens with
  | [] => []
  | t :: ts =>
      if bool_decide (t = []) then keep_tokens stopwords ts
      else if bool_decide (t ∈ stopwords) then keep_tokens stopwords ts
      else t :: keep_tokens stopwords ts
  end.

(** The text the loop over the words writes. *)
Definition unlines (ws : list str) : str :=
  concat (map (fun w => w ++ [NEWLINE]) ws).


(** The number of times [word] occurs in [l]. *)
Definition occurrences (word : str) (l : list str) : nat :=
  length (filter (fun x => x = word) l).

(** The sum of the values of a frequency map. *)
Definition sum_values (counts : gmap (list N) nat) : nat :=
  map_fold (fun _ v total => v + total) 0 counts.

(** The two lines the handler of [LookupError] writes. *)
Definition corpus_hint : str :=
  py "Error: NLTK stopwords corpus not found." ++ [NEWLINE]
  ++ py "Please download it with: python -m nltk.downloader stopwords"
  ++ [NEWLINE].

Section Specification.
Context {U : UnicodeData}.

Definition blank (s : str) : Prop := Forall (fun c => isspace c = true) s.
Definition solid (s : str) : Prop := Forall (fun c => isspace c = false) s.

(** The specification's "split on whitespace runs": the text is blank
    space, then a token that ends at the end of the text or before a
    whitespace character, then the rest. *)
Inductive whitespace_split : str -> list str -> Prop :=
  | ws_end w : blank w -> whitespace_split w []
  | ws_token w t s ts :
      blank w -> t ≠ [] -> solid t -> blank (take 1 s) ->
      whitespace_split s ts ->
      whitespace_split (w ++ t ++ s) (t :: ts).

(** A possessive suffix sits at index [i]: an apostrophe, an [s], and then
    the end of the text or a character that is not a word character. *)
Definition possessive_at (s : str) (i : nat) : bool :=
  bool_decide (s !! i = Some APOSTROPHE)
  && bool_decide (s !! (i + 1) = Some LETTER_s)
  && negb (word_char_at (s !! (i + 2))).

(** Index [i] holds the [s] of a possessive suffix. *)
Definition possessive_tail (s : str) (i : nat) : bool :=
  match i with
  | 0 => false
  | S j => possessive_at s j
  end.

(** Every suffix becomes one space: its apostrophe turns into the space,
    its [s] goes, every other character stays. *)
Definition strip_possessive (s : str) : str :=
  concat (imap (fun i c =>
                  if possessive_at s i then [SPACE]
                  else if possessive_tail s i then []
                  else [c]) s).

(** Every character that is neither a word character nor whitespace
    becomes one space. *)
Definition strip_punctuation (s : str) : str :=
  map (fun c => if is_word c then c else if isspace c then c else SPACE) s.

(** The token list the filter and the counter both build, by the same
    statements, before they go through it. *)
Definition tokenize (text : str) (keep_punctuation : bool) : list str :=
  if keep_punctuation then split (lower text)
  else split (sub_punctuation (sub_possessive (lower text))).

(** The specification's algorithm with [keep_punctuation] false, steps 2
    to 6. *)
Definition filtered_as_specified (stopwords : gset (list N)) (text : str)
    (result : list str) : Prop :=
  ∃ tokens,
    whitespace_split
      (strip_punctuation (strip_possessive (lower text))) tokens
    ∧ result = keep_tokens stopwords tokens.



End Specification.

(** Universal newlines, as the documentation of [open] words them: on
    input the line endings [\r\n] and [\r] are translated into [\n]. *)
Inductive universal_newlines : str -> str -> Prop :=
  | un_end : universal_newlines [] []
  | un_crlf s t :
      universal_newlines s t ->
      universal_newlines (RETURN :: NEWLINE :: s) (NEWLINE :: t)
  | un_cr s t :
      head s ≠ Some NEWLINE ->
      universal_newlines s t ->
      universal_newlines (RETURN :: s) (NEWLINE :: t)
  | un_char c s t :
      c ≠ RETURN ->
      universal_newlines s t ->
      universal_newlines (c :: s) (c :: t).

(** The lines of a text: each is a run of characters other than [\n] with
    the [\n] that ends it; the last line alone may lack its [\n], and is
    then not empty. *)
Inductive lines_of : str -> list str -> Prop :=
  | lines_end : lines_of [] []
  | lines_last body :
      body ≠ [] -> NEWLINE ∉ body -> lines_of body [body]
  | lines_cons body rest ls :
      NEWLINE ∉ body ->
      lines_of rest ls ->
      lines_of (body ++ NEWLINE :: rest) ((body ++ [NEWLINE]) :: ls).

(** Lowering an ASCII character: [A] to [Z] move up by 32, any other
    stays. *)
Definition ascii_lowered (c c' : N) : Prop :=
  ((65 ≤ c ∧ c ≤ 90)%N -> c' = (c + 32)%N)
  ∧ (¬ (65 ≤ c ∧ c ≤ 90)%N -> c' = c).

(** A text of ASCII characters only. *)
Definition ascii_text (s : str) : Prop :=
  Forall (fun c => is_ascii c = true) s.

(** An ASCII character that lowering leaves alone. *)
Definition lowered (c : N) : Prop := is_ascii c = true ∧ ascii_lower c = c.

(** The line the generator prints for a language it has written. *)
Definition created_line (w : world) (language : str) : str :=
  py "  Created " ++ language ++ py ".txt ("
  ++ decimal (length (match nltk_words w language with
                      | Ok ws => ws
                      | Raise _ => []
                      end))
  ++ py " words)" ++ [NEWLINE].

(** ** What a run of the generator amounts to *)

Section Summary.
Context (script_dir : str).

(** What a successful run leaves in the file of a language. *)
Definition file_text (w : world) (language : str) : str :=
  match nltk_words w language with
  | Ok ws => unlines (sorted ws)
  | Raise _ => []
  end.

(** The calls made for a language succeed. *)
Definition language_ok (w : world) (language : str) : Prop :=
  (∃ ws, nltk_words w language = Ok ws)
  ∧ os_open w (output_file script_dir language) = None.

(** The files after the loop over the languages has gone through [langs]. *)
Definition written (w : world) (langs : list str)
    (fs : gmap (list N) entry) : gmap (list N) entry :=
  foldl (fun fs language =>
           <[output_file script_dir language
             := TextFile (file_text w language)]> fs)
        fs langs.

End Summary.

(** * Example data *)

(** An installation, its English data file (one entry is capitalised and
    followed by a space), and the set the loader makes of it. *)
Definition demo_dir : str := py "/opt/stopwords".

Definition demo_english : str :=
  unlines [py "a"; py "it"; py "The "; py "the"].

Definition demo_fs : gmap (list N) entry :=
  {[ py "/opt/stopwords/data/english.txt" := TextFile demo_english ]}.

Definition demo_stopwords : gset (list N) :=
  list_to_set [py "a"; py "it"; py "the"].

Definition demo_text : str := py "The cat and the hat: Cat's hat!".

Definition demo_words : list str :=
  [py "cat"; py "and"; py "hat"; py "cat"; py "hat"].

Definition demo_counts : gmap (list N) nat :=
  {[ py "cat" := 2; py "and" := 1; py "hat" := 2 ]}.

(** Corpus readers: one with two languages, the same with its languages
    listed the other way round, one whose English list has an entry twice
    and a capitalised entry, and one that is not installed. *)
Definition demo_word_lists (language : str) : result (list str) :=
  if decide (language = py "english") then Ok [py "the"; py "a"; py "it"]
  else if decide (language = py "german") then Ok [py "und"; py "der"]
  else Raise (Exn OSError (py "No such file or directory")).

Definition demo_corpus : world := {|
  nltk_fileids := Ok [py "german"; py "english"];
  nltk_words := demo_word_lists;
  os_makedirs := fun _ => None;
  os_open := fun _ => None
|}.

Definition demo_corpus_reordered : world := {|
  nltk_fileids := Ok [py "english"; py "german"];
  nltk_words := demo_word_lists;
  os_makedirs := fun _ => None;
  os_open := fun _ => None
|}.


Definition missing_corpus : world := {|
  nltk_fileids :=
    Raise (Exn LookupError (py "Resource stopwords not found."));
  nltk_words := fun _ =>
    Raise (Exn LookupError (py "Resource stopwords not found."));
  os_makedirs := fun _ => None;
  os_open := fun _ => None
|}.

Definition fresh_process : process :=
  {| files := ∅; stdout := []; stderr := [] |}.

(** The process after [main] has run over [demo_corpus]. *)
Definition demo_generated : process :=
  (main demo_dir demo_corpus fresh_process).1.

(** A process that sees [demo_fs], an invocation of the command with
    three arguments, and the process after it. *)
Definition demo_process : process :=
  {| files := demo_fs; stdout := []; stderr := [] |}.

Definition demo_argv : list str :=
  [py "stopwords_python.py"; py "The"; py "cat's"; py "hat"].

Definition demo_after_cli : process :=
  (cli_main (U:=ascii_only) demo_dir demo_argv [] demo_process).2.

(** A data file with an empty line in it. *)
Definition gappy_fs : gmap (list N) entry :=
  {[ py "/opt/stopwords/data/english.txt"
     := TextFile (unlines [py "a"; []; py "it"]) ]}.

Definition gappy_stopwords : gset (list N) :=
  list_to_set [py "a"; []; py "it"].

(** An [english.txt] that is not UTF-8, and one that is a directory. *)
Definition garbled_fs : gmap (list N) entry :=
  {[ py "/opt/stopwords/data/english.txt"
     := Unreadable
          (Exn UnicodeDecodeError
               (py "'utf-8' codec can't decode byte 0xff in position 0: invalid start byte")) ]}.

Definition directory_fs : gmap (list N) entry :=
  {[ py "/opt/stopwords/data/english.txt"
     := Unreadable
          (Exn IsADirectoryError
               (py "[Errno 21] Is a directory: '/opt/stopwords/data/english.txt'")) ]}.

(** A corpus reader that cannot read its German list, and a process with
    a file the generator has nothing to do with. *)
Definition broken_corpus : world := {|
  nltk_fileids := Ok [py "german"; py "english"];
  nltk_words := fun language =>
    if decide (language = py "english") then Ok [py "the"; py "a"; py "it"]
    else Raise (Exn OSError (py "No such file or directory"));
  os_makedirs := fun _ => None;
  os_open := fun _ => None
|}.

Definition readme_process : process :=
  {| files := {[ py "/opt/stopwords/README.md"
                 := TextFile (py "stopwords") ]};
     stdout := [];
     stderr := [] |}.

(** The processes after the generator's [try] body has run over
    [demo_corpus] from [fresh_process] and from [readme_process]. *)
Definition demo_generated_body : process :=
  (generate demo_dir demo_corpus fresh_process).2.

Definition readme_generated : process :=
  (generate demo_dir demo_corpus readme_process).2.

(** * Properties *)

(** ** Characters *)

Section CharFacts.
Context {U : UnicodeData}.

Lemma isspace_SPACE : isspace SPACE = true.
Proof. reflexivity. Qed.

Lemma is_word_LETTER_s : is_word LETTER_s = true.
Proof. reflexivity. Qed.

Lemma is_word_APOSTROPHE : is_word APOSTROPHE = false.
Proof. reflexivity. Qed.

Lemma is_word_SPACE : is_word SPACE = false.
Proof. reflexivity. Qed.

(** After the [s] of a match, [\b] holds exactly where no word character
    follows. *)
Lemma word_boundary_after_s (next : option N) :
  word_boundary (Some LETTER_s) next = negb (word_char_at next).
Proof. unfold word_boundary. cbn [word_char_at]. by rewrite is_word_LETTER_s. Qed.

End CharFacts.

(** ** Splitting on whitespace *)

Section SplitFacts.
Context {U : UnicodeData}.

Lemma whitespace_split_cons c s ts :
  isspace c = true -> whitespace_split s ts -> whitespace_split (c :: s) ts.
Proof.
  intros Hc Hs. destruct Hs as [w Hw | w t s ts Hw Ht Hsol Hnext Hs].
  - apply ws_end. by constructor.
  - change (c :: w ++ t ++ s) with ((c :: w) ++ t ++ s).
    apply ws_token; auto. by constructor.
Qed.

Lemma split_scan_spec s :
  ∃ s', s = (split_scan s).1 ++ s' ∧ solid (split_scan s).1
        ∧ blank (take 1 s') ∧ whitespace_split s' (split_scan s).2.
Proof.
  induction s as [|c s IH]; simpl.
  - exists []. repeat split; try constructor. constructor.
  - destruct IH as (s' & Heq & Hsol & Hnext & Hsplit).
    destruct (split_scan s) as [t ts]; simpl in *.
    destruct (isspace c) eqn:Hc; simpl.
    + exists (c :: s). repeat split.
      * constructor.
      * constructor; [done | constructor].
      * rewrite Heq. destruct t as [|a t]; simpl.
        -- by apply whitespace_split_cons.
        -- apply (ws_token [c] (a :: t) s' ts); auto.
           by constructor.
    + exists s'. repeat split; auto.
      * by rewrite Heq at 1.
      * by constructor.
Qed.

(** [str.split()] meets the specification ... *)
Lemma split_whitespace_split s : whitespace_split s (split s).
Proof.
  unfold split. destruct (split_scan_spec s) as (s' & Heq & Hsol & Hnext & Hs).
  destruct (split_scan s) as [t ts]; simpl in *.
  destruct t as [|a t]; simpl in *.
  - by subst.
  - rewrite Heq. apply (ws_token [] (a :: t) s' ts); auto. constructor.
Qed.

Lemma split_scan_blank w s :
  blank w -> w ≠ [] -> split_scan (w ++ s) = ([], split s).
Proof.
  induction 1 as [|c w Hc Hw IH]; [done | intros _].
  simpl. rewrite Hc. destruct w as [|c' w].
  - simpl. unfold split. by destruct (split_scan s).
  - rewrite IH by done. by simpl.
Qed.

Lemma split_blank_app w s : blank w -> split (w ++ s) = split s.
Proof.
  intros Hw. destruct w as [|c w]; [done |].
  unfold split at 1. by rewrite split_scan_blank.
Qed.

Lemma split_scan_solid t s :
  solid t -> split_scan (t ++ s) = (t ++ (split_scan s).1, (split_scan s).2).
Proof.
  induction 1 as [|c t Hc Ht IH]; simpl.
  - by destruct (split_scan s).
  - rewrite IH, Hc. done.
Qed.

Lemma split_scan_next_blank s : blank (take 1 s) -> (split_scan s).1 = [].
Proof.
  destruct s as [|c s]; [done |]. simpl. intros Hc.
  apply Forall_cons_1 in Hc as [Hc _].
  destruct (split_scan s). by rewrite Hc.
Qed.

(** ... and is the only list that does. *)
Lemma whitespace_split_unique s ts : whitespace_split s ts -> ts = split s.
Proof.
  induction 1 as [w Hw | w t s ts Hw Ht Hsol Hnext Hs IH].
  - rewrite <- (app_nil_r w), split_blank_app by done. done.
  - rewrite split_blank_app by done. unfold split at 1.
    rewrite split_scan_solid by done.
    rewrite (split_scan_next_blank s) by done. rewrite app_nil_r.
    subst ts. unfold split. destruct (split_scan s) as [t0 ts0] eqn:E.
    simpl. pose proof (split_scan_next_blank s Hnext) as H0.
    rewrite E in H0. simpl in H0. subst t0.
    by destruct t.
Qed.

Lemma whitespace_split_iff s ts : whitespace_split s ts ↔ ts = split s.
Proof.
  split; [apply whitespace_split_unique |].
  intros ->. apply split_whitespace_split.
Qed.

(** Tokens are not empty, hold no whitespace, and are made of characters
    of the text. *)
Lemma whitespace_split_tokens (P : N -> Prop) s ts :
  whitespace_split s ts -> Forall P s ->
  Forall (fun t => t ≠ [] ∧ solid t ∧ Forall P t) ts.
Proof.
  induction 1 as [w Hw | w t s ts Hw Ht Hsol Hnext Hs IH]; intros HP.
  - constructor.
  - apply Forall_app in HP as [_ HP]. apply Forall_app in HP as [HPt HPs].
    constructor; auto.
Qed.

(** Nothing but whitespace is lost: the tokens, put end to end, are the
    characters of the text that are not whitespace. *)
Lemma whitespace_split_concat s ts :
  whitespace_split s ts ->
  concat ts = filter (fun c => isspace c = false) s.
Proof.
  assert (Hblank : ∀ w, blank w -> filter (fun c => isspace c = false) w = []).
  { induction 1 as [|c w Hc Hw IH]; [done |].
    rewrite filter_cons_False; [done | congruence]. }
  assert (Hsolid : ∀ t, solid t -> filter (fun c => isspace c = false) t = t).
  { induction 1 as [|c t Hc Ht IH]; [done |].
    rewrite filter_cons_True by done. by rewrite IH. }
  induction 1 as [w Hw | w t s ts Hw Ht Hsol Hnext Hs IH].
  - by rewrite Hblank.
  - rewrite !filter_app, Hblank, Hsolid by done. simpl. by rewrite IH.
Qed.

End SplitFacts.

(** ** The two substitutions, as the specification words them *)

Section SubstitutionFacts.
Context {U : UnicodeData}.

Lemma str_ind2 (P : str -> Prop) :
  P [] -> (∀ c, P [c]) ->
  (∀ c c' s, P s -> P (c' :: s) -> P (c :: c' :: s)) ->
  ∀ s, P s.
Proof.
  intros Hnil Hone Hstep s.
  cut (P s ∧ ∀ c, P (c :: s)); [by intros [? _] |].
  induction s as [|c' s [IH1 IH2]]; split; auto.
Qed.

Lemma possessive_at_cons c s i :
  possessive_at (c :: s) (S i) = possessive_at s i.
Proof. reflexivity. Qed.

Lemma possessive_at_0 c c' s :
  possessive_at (c :: c' :: s) 0
  = N.eqb c APOSTROPHE && N.eqb c' LETTER_s
    && word_boundary (Some c') (head s).
Proof.
  unfold possessive_at. simpl.
  destruct (N.eqb_spec c APOSTROPHE) as [-> | Hc].
  - rewrite bool_decide_eq_true_2 by done.
    destruct (N.eqb_spec c' LETTER_s) as [-> | Hc'].
    + rewrite bool_decide_eq_true_2 by done.
      rewrite word_boundary_after_s. by destruct s.
    + rewrite bool_decide_eq_false_2; [done | congruence].
  - rewrite bool_decide_eq_false_2; [done | congruence].
Qed.

Lemma strip_possessive_cons c s :
  strip_possessive (c :: s)
  = (if possessive_at (c :: s) 0 then [SPACE] else [c])
    ++ concat (imap (fun i x =>
                       if possessive_at s i then [SPACE]
                       else if possessive_tail (c :: s) (S i) then []
                       else [x]) s).
Proof. reflexivity. Qed.

Lemma strip_possessive_skip c s :
  possessive_at (c :: s) 0 = false ->
  strip_possessive (c :: s) = c :: strip_possessive s.
Proof.
  intros H. rewrite strip_possessive_cons, H. simpl. f_equal.
  unfold strip_possessive. f_equal. apply imap_ext. intros i x _.
  destruct i as [|i]; simpl; [by rewrite H | done].
Qed.

Lemma strip_possessive_hit c c' s :
  possessive_at (c :: c' :: s) 0 = true ->
  strip_possessive (c :: c' :: s) = SPACE :: strip_possessive s.
Proof.
  intros H. rewrite strip_possessive_cons, H.
  assert (c' = LETTER_s) as ->.
  { unfold possessive_at in H. simpl in H.
    apply andb_prop in H as [H _]. apply andb_prop in H as [_ H].
    apply bool_decide_eq_true in H. congruence. }
  assert (possessive_at (LETTER_s :: s) 0 = false) as Hs by done.
  cbn [imap concat app]. rewrite Hs. cbn [possessive_tail]. rewrite H.
  cbn [app]. f_equal.
  unfold strip_possessive. f_equal. apply imap_ext. intros i x _.
  unfold compose. cbn [possessive_tail]. rewrite !possessive_at_cons.
  destruct i as [|i]; cbn [possessive_tail]; [by rewrite Hs | done].
Qed.

(** [re.sub(r"'s\b", ' ', s)] is the specification's step 4a. *)
Lemma sub_possessive_spec s : sub_possessive s = strip_possessive s.
Proof.
  induction s as [| c | c c' s IH1 IH2] using str_ind2; [done | |].
  { rewrite strip_possessive_skip; [done |].
    unfold possessive_at. cbn [lookup list_lookup Nat.add].
    rewrite (bool_decide_eq_false_2 (None = _)) by done.
    by rewrite andb_false_r. }
  cbn [sub_possessive]. rewrite <- possessive_at_0.
  destruct (possessive_at (c :: c' :: s) 0) eqn:H.
  - rewrite strip_possessive_hit by done. by rewrite IH1.
  - rewrite strip_possessive_skip by done. by rewrite <- IH2.
Qed.

(** [re.sub(r'[^\w\s]', ' ', s)] is the specification's step 4b. *)
Lemma sub_punctuation_spec s : sub_punctuation s = strip_punctuation s.
Proof.
  unfold sub_punctuation, strip_punctuation. apply map_ext. intros c.
  destruct (is_word c), (isspace c); done.
Qed.

Lemma sub_punctuation_chars s :
  Forall (fun c => is_word c = true ∨ isspace c = true) (sub_punctuation s).
Proof.
  unfold sub_punctuation. apply Forall_map, Forall_forall. intros c _.
  destruct (is_word c) eqn:Hw; [auto |].
  destruct (isspace c) eqn:Hs; simpl; [auto |].
  right. apply isspace_SPACE.
Qed.

End SubstitutionFacts.

(** ** Lines and stripping *)

Section StripFacts.
Context {U : UnicodeData}.

Lemma lstrip_spec s :
  ∃ w, s = w ++ lstrip s ∧ blank w ∧ solid (take 1 (lstrip s)).
Proof.
  induction s as [|c s (w & Heq & Hw & Hhead)]; simpl.
  - exists []. repeat split; constructor.
  - destruct (isspace c) eqn:Hc.
    + exists (c :: w). repeat split; [by rewrite Heq at 1 | by constructor | done].
    + exists []. repeat split; [constructor |].
      repeat constructor. done.
Qed.

(** [strip] cuts a blank prefix and a blank suffix off, and what is left
    neither starts nor ends with whitespace. *)
Lemma strip_spec s :
  ∃ w1 w2, s = w1 ++ strip s ++ w2 ∧ blank w1 ∧ blank w2
           ∧ solid (take 1 (strip s)) ∧ solid (take 1 (reverse (strip s))).
Proof.
  unfold strip, rstrip.
  destruct (lstrip_spec s) as (w1 & Heq1 & Hw1 & Hhead).
  destruct (lstrip_spec (reverse (lstrip s))) as (w2 & Heq2 & Hw2 & Hlast).
  set (r := lstrip (reverse (lstrip s))) in *.
  assert (Hmid : lstrip s = reverse r ++ reverse w2).
  { rewrite <- reverse_app, <- Heq2. by rewrite reverse_involutive. }
  exists w1, (reverse w2). repeat split.
  - by rewrite <- Hmid.
  - done.
  - unfold blank. by rewrite Forall_reverse.
  - destruct r as [|a r]; [constructor |].
    rewrite Hmid in Hhead. rewrite reverse_cons in *.
    destruct (reverse r) as [|b r']; simpl in *; done.
  - by rewrite reverse_involutive.
Qed.

End StripFacts.

(** ** ASCII texts *)

Section AsciiFacts.
Context {U : UnicodeData}.

Lemma concat_imap_ascii (g : nat -> N -> list N) s :
  (∀ i c, is_ascii c = true -> g i c = [ascii_lower c]) ->
  ascii_text s -> concat (imap g s) = map ascii_lower s.
Proof.
  intros Hg Hs. revert g Hg.
  induction Hs as [|c s Hc Hs IH]; intros g Hg; [done |].
  cbn [imap concat map]. rewrite Hg by done. cbn [app]. f_equal.
  apply IH. intros i c'. apply Hg.
Qed.

(** On an ASCII text [lower] maps character by character. *)
Lemma lower_ascii_text s : ascii_text s -> lower s = map ascii_lower s.
Proof.
  intros Hs. unfold lower. apply concat_imap_ascii; [| done].
  intros i c Hc. by rewrite Hc.
Qed.

End AsciiFacts.

(** ** The lines of a text file *)

Lemma translate_newlines_universal s :
  universal_newlines s (translate_newlines s).
Proof.
  induction s as [| c | c c' s IH1 IH2] using str_ind2.
  - constructor.
  - cbn. destruct (N.eqb_spec c RETURN) as [-> | Hc].
    + apply un_cr; [done | constructor].
    + apply un_char; [done | constructor].
  - cbn [translate_newlines].
    destruct (N.eqb_spec c RETURN) as [-> | Hc]; [| by apply un_char].
    destruct (N.eqb_spec c' NEWLINE) as [-> | Hc']; [by apply un_crlf |].
    apply un_cr; [cbn; congruence | exact IH2].
Qed.

Lemma universal_newlines_unique s t :
  universal_newlines s t -> t = translate_newlines s.
Proof.
  induction 1 as [| s t _ IH | s t Hhead _ IH | c s t Hc _ IH].
  - done.
  - by rewrite IH.
  - cbn [translate_newlines]. change (N.eqb RETURN RETURN) with true.
    cbn match. f_equal. destruct s as [|c' s]; [done |].
    rewrite (proj2 (N.eqb_neq c' NEWLINE)); [done |].
    intros ->. by destruct Hhead.
  - cbn [translate_newlines]. rewrite (proj2 (N.eqb_neq c RETURN)) by done.
    by rewrite IH.
Qed.

Lemma cut_lines_line w rest :
  NEWLINE ∉ w ->
  cut_lines (w ++ NEWLINE :: rest) = (w ++ [NEWLINE]) :: cut_lines rest.
Proof.
  induction w as [|c w IH]; intros Hw; [done |].
  apply not_elem_of_cons in Hw as [Hc Hw]. cbn [app cut_lines].
  rewrite (proj2 (N.eqb_neq c NEWLINE)) by done. by rewrite IH.
Qed.

Lemma cut_lines_last body :
  body ≠ [] -> NEWLINE ∉ body -> cut_lines body = [body].
Proof.
  induction body as [|c body IH]; [done |]. intros _ [Hc Hb]%not_elem_of_cons.
  cbn [cut_lines]. rewrite (proj2 (N.eqb_neq c NEWLINE)) by done.
  destruct body as [|c' body]; [done |]. by rewrite IH.
Qed.

Lemma cut_lines_lines s : lines_of s (cut_lines s).
Proof.
  induction s as [|c s IH]; [constructor |]. cbn [cut_lines].
  destruct (N.eqb_spec c NEWLINE) as [-> | Hc].
  - apply (lines_cons [] s); [apply not_elem_of_nil | exact IH].
  - inversion IH as [Hs Hl | body Hne Hnl Hs Hl | body rest ls Hnl Hrest Hs Hl].
    + cbn. apply lines_last; [done |]. apply not_elem_of_cons.
      split; [congruence | apply not_elem_of_nil].
    + apply lines_last; [done |]. apply not_elem_of_cons.
      split; [congruence | done].
    + apply (lines_cons (c :: body) rest ls); [| done].
      apply not_elem_of_cons. split; [congruence | done].
Qed.

Lemma lines_of_unique s ls : lines_of s ls -> ls = cut_lines s.
Proof.
  induction 1 as [| body Hne Hnl | body rest ls Hnl _ IH].
  - done.
  - by rewrite cut_lines_last.
  - by rewrite cut_lines_line, IH.
Qed.

(** [for line in f] gives the lines of the translated text, and nothing
    else does. *)
Lemma readlines_lines content :
  ∃ text, universal_newlines content text ∧ lines_of text (readlines content).
Proof.
  exists (translate_newlines content).
  split; [apply translate_newlines_universal | apply cut_lines_lines].
Qed.

Lemma readlines_unique content text ls :
  universal_newlines content text -> lines_of text ls ->
  ls = readlines content.
Proof.
  intros ->%universal_newlines_unique ->%lines_of_unique. done.
Qed.

(** ** The loader *)

Section LoaderFacts.
Context {U : UnicodeData} (script_dir : str).

Lemma elem_of_collect {A} (f : A -> list N) (l : list A) (acc : gset (list N)) w :
  w ∈ foldl (fun stopwords line => {[ f line ]} ∪ stopwords) acc l
  ↔ w ∈ acc ∨ ∃ line, line ∈ l ∧ w = f line.
Proof.
  revert acc. induction l as [|x l IH]; intros acc; simpl.
  - split; [auto | intros [? | (? & H & _)]; [done | by apply elem_of_nil in H]].
  - rewrite IH. rewrite elem_of_union, elem_of_singleton. split.
    + intros [[-> | ?] | (line & Hin & ->)]; eauto.
      * right. exists x. split; [left | done].
      * right. exists line. split; [by right | done].
    + intros [? | (line & Hin & ->)]; [auto |].
      apply elem_of_cons in Hin as [-> | Hin]; eauto.
Qed.

Lemma load_stopwords_Ok fs language stopwords :
  load_stopwords script_dir fs language = Ok stopwords ->
  ∃ content,
    fs !! data_file script_dir language = Some (TextFile content).
Proof.
  unfold load_stopwords.
  destruct (fs !! data_file script_dir language) as [[content | e]|];
    [eauto | done | done].
Qed.

Lemma load_stopwords_TextFile fs language content :
  fs !! data_file script_dir language = Some (TextFile content) ->
  load_stopwords script_dir fs language
  = Ok (list_to_set ((fun line => lower (strip line)) <$> readlines content)).
Proof.
  intros Hfile. unfold load_stopwords. rewrite Hfile. f_equal.
  apply set_eq. intros w.
  rewrite elem_of_collect, elem_of_list_to_set, list_elem_of_fmap. split.
  - intros [H | (line & ? & ->)]; [by apply not_elem_of_empty in H | eauto].
  - intros (line & -> & ?). eauto.
Qed.

Lemma strip_ascii_text s : ascii_text s -> ascii_text (strip s).
Proof.
  assert (Hl : ∀ t, ascii_text t -> ascii_text (lstrip t)).
  { induction 1 as [|c t Hc Ht IH]; [constructor |]. cbn.
    destruct (isspace c); [done | by constructor]. }
  intros Hs. unfold strip, rstrip, ascii_text.
  rewrite Forall_reverse. apply Hl. unfold ascii_text.
  rewrite Forall_reverse. by apply Hl.
Qed.

Lemma lower_ascii_lowered_to s :
  ascii_text s -> Forall2 ascii_lowered s (lower s).
Proof.
  intros Hs. rewrite lower_ascii_text by done. apply Forall2_fmap_r.
  apply Forall_Forall2_diag. eapply Forall_impl; [exact Hs |].
  intros c _. unfold compose, ascii_lowered, ascii_lower. cbn beta.
  destruct ((65 <=? c)%N && (c <=? 90)%N) eqn:E.
  - split; [by intros _ |]. intros Hn. destruct Hn.
    apply andb_true_iff in E as [?%N.leb_le ?%N.leb_le]. done.
  - split; [| by intros _]. intros [?%N.leb_le ?%N.leb_le].
    apply andb_false_iff in E as [E | E]; congruence.
Qed.

(** C4, amended: when the data file is a text file, the loader returns the
    set of [line.strip().lower()] over the lines of the file: a string is a
    member exactly when a line gives it, so every line contributes and none
    is turned down.  The lines are those of the text with [\r\n] and [\r]
    read as [\n], each with its terminator, and there are no other;
    stripping takes a blank prefix and a blank suffix off and leaves no
    whitespace at either end; lowering an ASCII line moves [A] to [Z] up by
    32 and keeps any other character.  (A path that exists and cannot be
    read as text gives no set: the loader raises.) *)
Theorem load_stopwords_entries fs language content :
  fs !! data_file script_dir language = Some (TextFile content) ->
  ∃ stopwords,
    load_stopwords script_dir fs language = Ok stopwords
    ∧ stopwords
      = list_to_set ((fun line => lower (strip line)) <$> readlines content)
    ∧ NoDup (elements stopwords)
    ∧ (∀ w, w ∈ stopwords
            ↔ ∃ line, line ∈ readlines content ∧ w = lower (strip line))
    ∧ (∃ text, universal_newlines content text
               ∧ lines_of text (readlines content))
    ∧ (∀ text ls, universal_newlines content text -> lines_of text ls ->
                  ls = readlines content)
    ∧ (∀ line, line ∈ readlines content ->
         lower (strip line) ∈ stopwords
         ∧ (∃ w1 w2, line = w1 ++ strip line ++ w2 ∧ blank w1 ∧ blank w2
                     ∧ solid (take 1 (strip line))
                     ∧ solid (take 1 (reverse (strip line))))
         ∧ (ascii_text line ->
            Forall2 ascii_lowered (strip line) (lower (strip line)))).
Proof.
  intros Hfile. eexists. split; [by apply load_stopwords_TextFile |].
  split; [reflexivity |]. split; [apply NoDup_elements |].
  assert (Hiff : ∀ w,
    w ∈ (list_to_set ((fun line => lower (strip line)) <$> readlines content)
         : gset (list N))
    ↔ ∃ line, line ∈ readlines content ∧ w = lower (strip line)).
  { intros w. rewrite elem_of_list_to_set, list_elem_of_fmap.
    split; intros (line & ? & ?); eauto. }
  split; [exact Hiff |].
  split; [apply readlines_lines |]. split; [apply readlines_unique |].
  intros line Hline. split; [apply Hiff; eauto |].
  split; [apply strip_spec |].
  intros Hascii. by apply lower_ascii_lowered_to, strip_ascii_text.
Qed.

(** C5, amended: when the data file does not exist, the loader raises
    [FileNotFoundError] with a message that ends with the resolved path.
    When the path exists and cannot be read as text (a directory, no
    permission, bytes that are not UTF-8), the exception of [open] or of
    the decoder comes out as it is.  The loader raises in these two cases
    and in no other, and a set it returns is never partial: the path is
    then a text file and every line of it is in the set. *)
Theorem load_stopwords_missing fs language :
  (fs !! data_file script_dir language = None ->
   load_stopwords script_dir fs language
   = Raise (Exn FileNotFoundError
                (py "Stopwords file not found: "
                 ++ data_file script_dir language)))
  ∧ (∀ e, fs !! data_file script_dir language = Some (Unreadable e) ->
          load_stopwords script_dir fs language = Raise e)
  ∧ ((∃ e, load_stopwords script_dir fs language = Raise e)
     ↔ fs !! data_file script_dir language = None
       ∨ ∃ e, fs !! data_file script_dir language = Some (Unreadable e))
  ∧ (∀ stopwords,
       load_stopwords script_dir fs language = Ok stopwords ->
       ∃ content,
         fs !! data_file script_dir language = Some (TextFile content)
         ∧ ∀ line, line ∈ readlines content ->
                   lower (strip line) ∈ stopwords).
Proof.
  destruct (fs !! data_file script_dir language) as [[content | e]|] eqn:Hfile.
  - rewrite (load_stopwords_TextFile _ _ _ Hfile).
    split; [done |]. split; [done |]. split.
    + split; [by intros [e ?] | by intros [? | [e ?]]].
    + intros sw [= <-]. exists content. split; [done |]. intros line Hline.
      apply elem_of_list_to_set, list_elem_of_fmap. eauto.
  - unfold load_stopwords. rewrite Hfile.
    split; [done |]. split; [by intros ? [= <-] |]. split; [| done].
    split; [intros _; right; eauto | eauto].
  - unfold load_stopwords. rewrite Hfile.
    split; [done |]. split; [done |]. split; [| done].
    split; [by left | eauto].
Qed.

End LoaderFacts.

(** ** The filter *)

Lemma filter_kept stopwords tokens :
  filter (kept stopwords) tokens = keep_tokens stopwords tokens.
Proof.
  induction tokens as [|t ts IH]; [done |]. simpl.
  destruct (decide (t = [])) as [-> | Hne].
  - rewrite filter_cons_False; [done | by intros [? _]].
  - rewrite (bool_decide_eq_false_2 (t = [])) by done.
    destruct (decide (t ∈ stopwords)) as [Hin | Hout].
    + rewrite bool_decide_eq_true_2 by done.
      rewrite filter_cons_False; [done | by intros [_ ?]].
    + rewrite bool_decide_eq_false_2 by done.
      rewrite filter_cons_True by done. by rewrite IH.
Qed.

Lemma elem_of_keep_tokens stopwords tokens t :
  t ∈ keep_tokens stopwords tokens ↔ t ∈ tokens ∧ t ≠ [] ∧ t ∉ stopwords.
Proof.
  rewrite <- filter_kept, list_elem_of_filter. unfold kept. tauto.
Qed.

Section FilterFacts.
Context {U : UnicodeData} (script_dir : str).

Lemma filter_stopwords_Ok fs text language flag stopwords :
  load_stopwords script_dir fs language = Ok stopwords ->
  filter_stopwords script_dir fs text language flag
  = Ok (filter (kept stopwords) (tokenize text flag)).
Proof. intros H. unfold filter_stopwords. by rewrite H. Qed.

Lemma filter_stopwords_inv fs text language flag result :
  filter_stopwords script_dir fs text language flag = Ok result ->
  ∃ stopwords,
    load_stopwords script_dir fs language = Ok stopwords
    ∧ result = filter (kept stopwords) (tokenize text flag).
Proof.
  unfold filter_stopwords.
  destruct (load_stopwords script_dir fs language) as [sw | e]; [| done].
  intros [= <-]. eauto.
Qed.

(** C1: with [keep_punctuation] false and a stop-word file that loads, the
    filter returns the one list the specification's steps lead to: lower
    the text, put a space for each ['s] that no word character follows,
    put a space for each character that is neither a word character nor
    whitespace, split on whitespace runs, keep in order the tokens that
    are not empty and not stop words.  The empty text gives the empty
    list. *)
Theorem filter_stopwords_as_specified fs text language stopwords :
  load_stopwords script_dir fs language = Ok stopwords ->
  (∃ result,
     filter_stopwords script_dir fs text language false = Ok result
     ∧ filtered_as_specified stopwords text result
     ∧ ∀ r, filtered_as_specified stopwords text r -> r = result)
  ∧ filter_stopwords script_dir fs [] language false = Ok [].
Proof.
  intros Hload. split; [| by rewrite (filter_stopwords_Ok _ _ _ _ _ Hload)].
  eexists. split; [by apply filter_stopwords_Ok |].
  unfold tokenize. rewrite sub_possessive_spec, sub_punctuation_spec, filter_kept.
  split.
  - eexists. split; [apply split_whitespace_split | done].
  - intros r (tokens & Hsplit & ->).
    by rewrite (whitespace_split_unique _ _ Hsplit).
Qed.

(** C10: with [keep_punctuation] false every returned token is non-empty
    and made of word characters only: none of its characters is
    whitespace, and none is an apostrophe. *)
Theorem filter_stopwords_word_tokens fs text language result :
  filter_stopwords script_dir fs text language false = Ok result ->
  Forall (fun t => t ≠ []
                   ∧ Forall (fun c => is_word c = true ∧ isspace c = false
                                      ∧ c ≠ APOSTROPHE) t) result.
Proof.
  intros (stopwords & _ & ->)%filter_stopwords_inv.
  apply Forall_forall. intros t [_ Ht]%list_elem_of_filter.
  unfold tokenize in Ht.
  pose proof (whitespace_split_tokens _ _ _
                (split_whitespace_split _)
                (sub_punctuation_chars (sub_possessive (lower text)))) as Htok.
  rewrite Forall_forall in Htok. destruct (Htok t Ht) as (Hne & Hsolid & Hchars).
  split; [done |]. apply Forall_forall. intros c Hc.
  unfold solid in Hsolid. rewrite Forall_forall in Hsolid, Hchars.
  specialize (Hsolid c Hc). destruct (Hchars c Hc) as [Hw | Hs]; [| congruence].
  repeat split; auto. intros ->. by rewrite is_word_APOSTROPHE in Hw.
Qed.

(** C6: with [keep_punctuation] true the tokens are the whitespace-split
    of the lowered text itself: every character of it that is not
    whitespace is in a token, so nothing is stripped.  The result keeps
    exactly the tokens that are not empty and not equal to a stop word;
    ["Hello,   world!!"] gives [hello,] and [world!!] unless they are stop
    words. *)
Theorem filter_stopwords_keep_punctuation fs text language stopwords :
  load_stopwords script_dir fs language = Ok stopwords ->
  (∃ tokens,
     whitespace_split (lower text) tokens
     ∧ concat tokens = filter (fun c => isspace c = false) (lower text)
     ∧ filter_stopwords script_dir fs text language true
       = Ok (keep_tokens stopwords tokens)
     ∧ ∀ t, t ∈ keep_tokens stopwords tokens
            ↔ t ∈ tokens ∧ t ≠ [] ∧ t ∉ stopwords)
  ∧ (py "hello," ∉ stopwords -> py "world!!" ∉ stopwords ->
     filter_stopwords script_dir fs (py "Hello,   world!!") language true
     = Ok [py "hello,"; py "world!!"]).
Proof.
  intros Hload. split.
  - exists (split (lower text)).
    split; [apply split_whitespace_split |].
    split; [apply whitespace_split_concat, split_whitespace_split |].
    split; [| apply elem_of_keep_tokens].
    rewrite (filter_stopwords_Ok _ _ _ _ _ Hload). by rewrite filter_kept.
  - intros H1 H2. rewrite (filter_stopwords_Ok _ _ _ _ _ Hload).
    replace (tokenize (py "Hello,   world!!") true)
      with [py "hello,"; py "world!!"] by (vm_compute; reflexivity).
    rewrite filter_kept. simpl.
    by rewrite !bool_decide_eq_false_2.
Qed.

End FilterFacts.

(** ** The counter *)

Lemma occurrences_cons word x l :
  occurrences word (x :: l)
  = (if decide (x = word) then 1 else 0) + occurrences word l.
Proof.
  unfold occurrences. destruct (decide (x = word)) as [H | H].
  - by rewrite filter_cons_True.
  - by rewrite filter_cons_False.
Qed.

Lemma occurrences_pos word l : word ∈ l -> 0 < occurrences word l.
Proof.
  induction l as [|x l IH]; [by intros ?%elem_of_nil |].
  rewrite occurrences_cons. intros [-> | Hin]%elem_of_cons.
  - case_decide; [lia | done].
  - specialize (IH Hin). lia.
Qed.

Lemma occurrences_absent word l : word ∉ l -> occurrences word l = 0.
Proof.
  induction l as [|x l IH]; [done |].
  intros Hout. rewrite occurrences_cons, IH.
  - case_decide as Heq; [| done]. destruct Hout. rewrite Heq. by left.
  - intros Hin. destruct Hout. by right.
Qed.

Lemma foldl_count_up_lookup l counts word :
  foldl count_up counts l !! word
  = if decide (word ∈ l)
    then Some (default 0 (counts !! word) + occurrences word l)
    else counts !! word.
Proof.
  revert counts. induction l as [|x l IH]; intros counts.
  - cbn [foldl]. destruct (decide (word ∈ [])) as [Hin | _]; [| done].
    by apply elem_of_nil in Hin.
  - cbn [foldl]. rewrite IH, occurrences_cons. unfold count_up.
    destruct (decide (x = word)) as [-> | Hne].
    + rewrite lookup_insert_eq. cbn [default].
      destruct (decide (word ∈ word :: l)) as [_ | Hout];
        [| by destruct Hout; left].
      destruct (decide (word ∈ l)) as [Hin | Hout].
      * f_equal. unfold id. lia.
      * f_equal. rewrite occurrences_absent by done. unfold id. lia.
    + rewrite lookup_insert_ne by done.
      destruct (decide (word ∈ l)) as [Hin | Hout];
        destruct (decide (word ∈ x :: l)) as [Hin' | Hout']; try done.
      * destruct Hout'. by right.
      * apply elem_of_cons in Hin' as [? | ?]; congruence.
Qed.

Lemma sum_values_count_up counts word :
  sum_values (count_up counts word) = S (sum_values counts).
Proof.
  assert (Hcomm : ∀ (m : gmap (list N) nat) (j1 j2 : list N) (z1 z2 y : nat),
             j1 ≠ j2 -> m !! j1 = Some z1 -> m !! j2 = Some z2 ->
             z1 + (z2 + y) = z2 + (z1 + y)) by (intros; lia).
  unfold sum_values, count_up.
  destruct (counts !! word) as [v|] eqn:Hv; cbn [default]; unfold id.
  - rewrite <- (insert_delete_eq counts word (v + 1)).
    rewrite map_fold_insert_L; [| apply Hcomm | apply lookup_delete_eq].
    rewrite <- (insert_id counts word v Hv) at 2.
    rewrite <- (insert_delete_eq counts word v).
    rewrite map_fold_insert_L; [| apply Hcomm | apply lookup_delete_eq].
    lia.
  - rewrite map_fold_insert_L; [| apply Hcomm | done]. lia.
Qed.

Lemma sum_values_foldl l counts :
  sum_values (foldl count_up counts l) = sum_values counts + length l.
Proof.
  revert counts. induction l as [|x l IH]; intros counts; simpl; [lia |].
  rewrite IH, sum_values_count_up. lia.
Qed.

Lemma foldl_count_filter (stopwords : gset (list N)) words counts :
  foldl (fun counts word =>
           if decide (kept stopwords word)
           then count_up counts word
           else counts) counts words
  = foldl count_up counts (filter (kept stopwords) words).
Proof.
  revert counts. induction words as [|x l IH]; intros counts; [done |].
  cbn [foldl]. destruct (decide (kept stopwords x)) as [Hk | Hk].
  - rewrite filter_cons_True by done. apply IH.
  - rewrite filter_cons_False by done. apply IH.
Qed.

Section CounterFacts.
Context {U : UnicodeData} (script_dir : str).

(** The counter returns the tally of what the filter returns. *)
Lemma count_words_tally fs text language flag counts :
  count_words script_dir fs text language flag = Ok counts ->
  ∃ l, filter_stopwords script_dir fs text language flag = Ok l
       ∧ counts = foldl count_up ∅ l.
Proof.
  unfold count_words, filter_stopwords.
  destruct (load_stopwords script_dir fs language) as [sw | e]; [| done].
  intros [= <-]. eexists. split; [reflexivity |]. apply foldl_count_filter.
Qed.

(** C2: when both succeed, the values of the frequency map add up to the
    length of the filtered list, its keys are the distinct tokens of that
    list, and each key is mapped to the number of times it occurs there. *)
Theorem count_words_consistent fs text language flag counts l :
  count_words script_dir fs text language flag = Ok counts ->
  filter_stopwords script_dir fs text language flag = Ok l ->
  sum_values counts = length l
  ∧ dom counts = list_to_set l
  ∧ (∀ word, word ∈ l -> counts !! word = Some (occurrences word l))
  ∧ (∀ word n, counts !! word = Some n -> word ∈ l ∧ n = occurrences word l).
Proof.
  intros (l' & Hl' & ->)%count_words_tally Hl.
  rewrite Hl in Hl'. injection Hl' as <-.
  assert (Hlook : ∀ word, foldl count_up (∅ : gmap (list N) nat) l !! word
                  = if decide (word ∈ l) then Some (occurrences word l)
                    else None).
  { intros word. rewrite foldl_count_up_lookup, lookup_empty. done. }
  split; [| split; [| split]].
  - rewrite sum_values_foldl. unfold sum_values. by rewrite map_fold_empty.
  - apply set_eq. intros word.
    rewrite elem_of_dom, elem_of_list_to_set, Hlook.
    destruct (decide (word ∈ l)); split; done.
  - intros word Hin. rewrite Hlook. by case_decide.
  - intros word n. rewrite Hlook.
    destruct (decide (word ∈ l)); [| done]. by intros [= <-].
Qed.

(** C9: every count in the frequency map is at least 1, and the empty
    string is not a key. *)
Theorem count_words_positive fs text language flag counts :
  count_words script_dir fs text language flag = Ok counts ->
  (∀ word n, counts !! word = Some n -> 1 ≤ n) ∧ counts !! [] = None.
Proof.
  intros (l & Hl & ->)%count_words_tally.
  apply filter_stopwords_inv in Hl as (stopwords & _ & ->).
  split.
  - intros word n. rewrite foldl_count_up_lookup, lookup_empty.
    destruct (decide (word ∈ _)) as [Hin | Hout]; [| done].
    intros [= <-]. apply occurrences_pos in Hin. simpl. lia.
  - rewrite foldl_count_up_lookup, lookup_empty.
    case_decide as Hin; [| done].
    by apply list_elem_of_filter in Hin as [[? _] _].
Qed.

End CounterFacts.

(** ** Sorting *)

Lemma str_leb_cons a s b t :
  str_leb (a :: s) (b :: t) = true ↔ (a < b)%N ∨ (a = b ∧ str_leb s t = true).
Proof.
  cbn [str_leb]. rewrite orb_true_iff, andb_true_iff, N.ltb_lt, N.eqb_eq. done.
Qed.

#[global] Instance str_le_total : Total str_le.
Proof.
  intros s. unfold str_le. induction s as [|a s IH]; intros [|b t]; auto.
  rewrite !str_leb_cons. destruct (IH t); destruct (N.lt_total a b) as [?|[?|?]];
    auto.
Qed.

#[global] Instance str_le_trans : Transitive str_le.
Proof.
  intros s. unfold str_le. induction s as [|a s IH]; intros [|b t] [|c u]; auto;
    try done.
  rewrite !str_leb_cons. intros [? | [-> ?]] [? | [-> ?]]; eauto.
  left. lia.
Qed.

#[global] Instance str_le_antisym : AntiSymm (=) str_le.
Proof.
  intros s. unfold str_le. induction s as [|a s IH]; intros [|b t]; auto;
    try done.
  rewrite !str_leb_cons. intros [? | [-> ?]] [? | [? ?]]; try lia.
  f_equal. auto.
Qed.

Lemma sorted_Sorted l : Sorted str_le (sorted l).
Proof. apply Sorted_merge_sort. apply _. Qed.

Lemma sorted_Permutation l : sorted l ≡ₚ l.
Proof. apply merge_sort_Permutation. Qed.

(** The order in which a list arrives does not show after sorting. *)
Lemma sorted_unique l1 l2 : l1 ≡ₚ l2 -> sorted l1 = sorted l2.
Proof.
  intros Hperm. apply (Sorted_unique str_le); try apply sorted_Sorted.
  by rewrite !sorted_Permutation.
Qed.

(** ** Files of lines *)



(** ** The generator *)

Lemma process_eta p :
  {| files := files p; stdout := stdout p; stderr := stderr p |} = p.
Proof. by destruct p. Qed.

(** The loop over the words appends the lines to the opened file. *)
Lemma for_each_file_write path ws p :
  for_each (fun word => file_write path (word ++ [NEWLINE])) ws p
  = (Ok (), {| files := alter (append_text (unlines ws)) path (files p);
               stdout := stdout p;
               stderr := stderr p |}).
Proof.
  revert p. induction ws as [|word ws IH]; intros p.
  - cbn [for_each]. unfold mret, io_ret. f_equal.
    rewrite alter_id; [by rewrite process_eta |].
    intros [content | e] _; [| done]. cbn. by rewrite app_nil_r.
  - cbn [for_each]. unfold mbind, io_bind, file_write at 1. rewrite IH.
    cbn [files stdout stderr]. do 2 f_equal.
    rewrite alter_alter_eq. apply alter_ext. intros [content | e] _; [| done].
    unfold compose, unlines. cbn [map concat append_text].
    by rewrite <- !app_assoc.
Qed.

Section GeneratorFacts.
Context (script_dir : str).

Lemma generate_language_run w language p :
  generate_language script_dir w language p
  = match nltk_words w language with
    | Raise e => (Raise e, p)
    | Ok ws =>
        match os_open w (output_file script_dir language) with
        | Some e => (Raise e, p)
        | None =>
            (Ok (),
             {| files := <[output_file script_dir language
                           := TextFile (unlines (sorted ws))]> (files p);
                stdout := stdout p
                          ++ (py "  Created " ++ language ++ py ".txt ("
                              ++ decimal (length ws) ++ py " words)")
                          ++ [NEWLINE];
                stderr := stderr p |})
        end
    end.
Proof.
  unfold generate_language, mbind, io_bind, lift.
  destruct (nltk_words w language) as [ws | e]; [| done].
  unfold open_w.
  destruct (os_open w (output_file script_dir language)) as [e|]; [done |].
  rewrite for_each_file_write. unfold print. cbn [files stdout stderr].
  by rewrite alter_insert_eq.
Qed.

Lemma for_each_generate_language w langs p r q :
  for_each (generate_language script_dir w) langs p = (r, q) ->
  stderr q = stderr p
  ∧ (r = Ok () ->
     files q = written script_dir w langs (files p) ∧ Forall (language_ok script_dir w) langs).
Proof.
  revert p. induction langs as [|language langs IH]; intros p.
  - cbn [for_each]. unfold mret, io_ret. intros [= <- <-].
    split; [done |]. intros _. split; [done | constructor].
  - cbn [for_each]. unfold mbind, io_bind at 1.
    rewrite generate_language_run. unfold written, file_text, language_ok.
    destruct (nltk_words w language) as [ws | e] eqn:Hws;
      [| intros [= <- <-]; split; done].
    destruct (os_open w (output_file script_dir language)) as [e|] eqn:Hopen;
      [intros [= <- <-]; split; done |].
    intros Hrun. apply IH in Hrun as [Herr Hok]. cbn [stderr files] in *.
    split; [done |]. intros Hr. destruct (Hok Hr) as [Hfiles Hall].
    cbn [foldl]. rewrite Hws. split; [done |].
    constructor; [| done]. split; [eauto | done].
Qed.

Lemma for_each_generate_language_ok w langs p :
  Forall (language_ok script_dir w) langs ->
  ∃ q, for_each (generate_language script_dir w) langs p = (Ok (), q).
Proof.
  intros Hall. revert p.
  induction Hall as [|language langs [[ws Hws] Hopen] Hall IH]; intros p.
  - by eexists.
  - cbn [for_each]. unfold mbind, io_bind at 1.
    rewrite generate_language_run, Hws, Hopen. apply IH.
Qed.

Lemma generate_run w p :
  generate script_dir w p
  = match os_makedirs w (data_dir script_dir) with
    | Some e => (Raise e, p)
    | None =>
        let '(_, p1) :=
          print (py "Creating stopwords data files in "
                 ++ data_dir script_dir ++ py "/") p in
        match nltk_fileids w with
        | Raise e => (Raise e, p1)
        | Ok languages =>
            match for_each (generate_language script_dir w)
                           (sorted languages) p1 with
            | (Raise e, p2) => (Raise e, p2)
            | (Ok _, p2) =>
                let '(_, p3) :=
                  print ([NEWLINE] ++ py "Successfully generated "
                         ++ decimal (length languages)
                         ++ py " stopwords files.") p2 in
                print (py "Available languages: "
                       ++ join_with (py ", ") (sorted languages)) p3
            end
        end
    end.
Proof.
  unfold generate, mbind, io_bind, raise_if, lift.
  destruct (os_makedirs w (data_dir script_dir)); [done |].
  unfold mret, io_ret. cbn [print].
  destruct (nltk_fileids w) as [languages | e]; [| done].
  by destruct (for_each _ _ _) as [[[] | e] p2].
Qed.

(** Nothing in the [try] body writes to the error stream. *)
Lemma generate_stderr w p r q :
  generate script_dir w p = (r, q) -> stderr q = stderr p.
Proof.
  rewrite generate_run.
  destruct (os_makedirs w (data_dir script_dir)); [by intros [= <- <-] |].
  cbn [print]. destruct (nltk_fileids w) as [languages | e];
    [| by intros [= <- <-]].
  destruct (for_each _ _ _) as [r2 p2] eqn:Hloop.
  apply for_each_generate_language in Hloop as [Herr _]. cbn [stderr] in Herr.
  destruct r2 as [[] | e]; intros [= <- <-]; done.
Qed.

Lemma generate_Ok w p q :
  generate script_dir w p = (Ok (), q) ->
  os_makedirs w (data_dir script_dir) = None
  ∧ ∃ languages,
      nltk_fileids w = Ok languages
      ∧ Forall (language_ok script_dir w) (sorted languages)
      ∧ files q = written script_dir w (sorted languages) (files p).
Proof.
  rewrite generate_run.
  destruct (os_makedirs w (data_dir script_dir)); [done |].
  cbn [print]. destruct (nltk_fileids w) as [languages | e]; [| done].
  destruct (for_each _ _ _) as [r2 p2] eqn:Hloop.
  apply for_each_generate_language in Hloop as [_ Hok]. cbn [files] in Hok.
  destruct r2 as [[] | e]; [| done]. intros [= <-].
  destruct (Hok eq_refl) as [Hfiles Hall]. cbn [files].
  split; [done |]. exists languages. done.
Qed.

Lemma generate_succeeds w p languages :
  os_makedirs w (data_dir script_dir) = None ->
  nltk_fileids w = Ok languages ->
  Forall (language_ok script_dir w) (sorted languages) ->
  ∃ q, generate script_dir w p = (Ok (), q).
Proof.
  intros Hmk Hids Hall. rewrite generate_run, Hmk. cbn [print]. rewrite Hids.
  edestruct for_each_generate_language_ok as [q ->]; [done |].
  by eexists.
Qed.

End GeneratorFacts.

Section WrittenFacts.
Context (script_dir : str).

Lemma written_snoc w langs language fs :
  written script_dir w (langs ++ [language]) fs
  = <[output_file script_dir language := TextFile (file_text w language)]>
      (written script_dir w langs fs).
Proof. unfold written. by rewrite foldl_app. Qed.

(** The loop is a block of writes laid over the files that were there. *)
Lemma written_union w langs fs :
  written script_dir w langs fs
  = list_to_map
      (reverse (map (fun language => (output_file script_dir language,
                                      TextFile (file_text w language)))
                    langs))
    ∪ fs.
Proof.
  revert fs. induction langs as [|language langs IH]; intros fs.
  - cbn. by rewrite (left_id_L ∅ (∪)).
  - unfold written in *. cbn [foldl map]. rewrite IH, reverse_cons.
    rewrite list_to_map_app, <- (assoc_L (∪)). f_equal.
    cbn. by rewrite <- insert_union_l, (left_id_L ∅ (∪)).
Qed.

Lemma written_twice w langs fs :
  written script_dir w langs (written script_dir w langs fs)
  = written script_dir w langs fs.
Proof.
  rewrite !written_union, (assoc_L (∪)). f_equal. apply (idemp_L (∪)).
Qed.

(** The file of a language does not depend on what was there before. *)
Lemma written_lookup_fresh w langs fs1 fs2 language :
  language ∈ langs ->
  written script_dir w langs fs1 !! output_file script_dir language
  = written script_dir w langs fs2 !! output_file script_dir language.
Proof.
  induction langs as [|x langs IH] using rev_ind;
    [by intros ?%elem_of_nil |].
  rewrite !written_snoc. intros Hin.
  destruct (decide (output_file script_dir x
                    = output_file script_dir language)) as [Heq | Hne].
  - by rewrite Heq, !lookup_insert_eq.
  - rewrite !lookup_insert_ne by done. apply IH.
    apply elem_of_app in Hin as [Hin | Hin]; [done |].
    apply list_elem_of_singleton in Hin. congruence.
Qed.

Lemma written_lookup w langs fs language :
  language ∈ langs ->
  (∀ l, l ∈ langs ->
        output_file script_dir l = output_file script_dir language ->
        l = language) ->
  written script_dir w langs fs !! output_file script_dir language
  = Some (TextFile (file_text w language)).
Proof.
  induction langs as [|x langs IH] using rev_ind;
    [by intros ?%elem_of_nil |].
  rewrite written_snoc. intros Hin Hinj.
  destruct (decide (output_file script_dir x
                    = output_file script_dir language)) as [Heq | Hne].
  - rewrite (Hinj x); [apply lookup_insert_eq | | done].
    apply elem_of_app. right. by apply list_elem_of_singleton.
  - rewrite lookup_insert_ne by done. apply IH.
    + apply elem_of_app in Hin as [Hin | Hin]; [done |].
      apply list_elem_of_singleton in Hin. congruence.
    + intros l Hl. apply Hinj. apply elem_of_app. by left.
Qed.

(** Identifiers that are relative file names get distinct files. *)
Lemma output_file_inj l1 l2 :
  starts_with_sep l1 = false -> starts_with_sep l2 = false ->
  output_file script_dir l1 = output_file script_dir l2 -> l1 = l2.
Proof.
  intros H1 H2. unfold output_file, path_join.
  assert (Hrel : ∀ l, starts_with_sep l = false ->
                      starts_with_sep (l ++ py ".txt") = false).
  { by intros [|c l]. }
  rewrite !Hrel by done.
  destruct (bool_decide _ || ends_with_sep _); intros Heq.
  - apply app_inv_head in Heq. by apply app_inv_tail in Heq.
  - apply app_inv_head in Heq. injection Heq as Heq.
    by apply app_inv_tail in Heq.
Qed.

End WrittenFacts.

Section GeneratorTheorems.
Context {U : UnicodeData} (script_dir : str).


(** C7: a second run over the same corpus, whatever the order in which it
    lists its languages, succeeds like the first and leaves every file as
    the first run left it; and a run from any other state writes the same
    text to the file of each language. *)
Theorem generator_rerun w w' p p1 languages languages' :
  nltk_fileids w = Ok languages ->
  nltk_fileids w' = Ok languages' ->
  languages ≡ₚ languages' ->
  (∀ language, nltk_words w' language = nltk_words w language) ->
  (∀ path, os_makedirs w' path = os_makedirs w path) ->
  (∀ path, os_open w' path = os_open w path) ->
  main script_dir w p = (p1, 0) ->
  (∃ p2, main script_dir w' p1 = (p2, 0) ∧ files p2 = files p1)
  ∧ (∀ q, ∃ q2,
       main script_dir w' q = (q2, 0)
       ∧ ∀ language, language ∈ languages ->
           files q2 !! output_file script_dir language
           = files p1 !! output_file script_dir language).
Proof.
  intros Hids Hids' Hperm Hwords Hmk Hopen Hmain.
  assert (Hgen : ∃ p', generate script_dir w p = (Ok (), p') ∧ p1 = p').
  { unfold main in Hmain.
    destruct (generate script_dir w p) as [[[] | e] p'] eqn:Hgen.
    - injection Hmain as <-. eauto.
    - by destruct (is_LookupError (exn_cls e)). }
  destruct Hgen as (? & Hgen & <-).
  apply generate_Ok in Hgen as (Hmk1 & ? & Hids1 & Hall & Hfiles).
  rewrite Hids in Hids1. injection Hids1 as <-.
  assert (Hsorted : sorted languages' = sorted languages)
    by (symmetry; by apply sorted_unique).
  assert (Htext : ∀ langs fs,
             written script_dir w' langs fs = written script_dir w langs fs).
  { intros langs fs. unfold written, file_text.
    revert fs. induction langs as [|l langs IH]; intros fs; [done |].
    cbn [foldl]. by rewrite Hwords, IH. }
  assert (Hrun : ∀ q, ∃ q2,
             main script_dir w' q = (q2, 0)
             ∧ files q2 = written script_dir w (sorted languages) (files q)).
  { intros q.
    destruct (generate_succeeds script_dir w' q languages') as [q2 Hq2].
    - by rewrite Hmk.
    - done.
    - rewrite Hsorted. eapply Forall_impl; [exact Hall |].
      intros l [[ws Hws] Hop]. split; [exists ws | ]; congruence.
    - exists q2. unfold main. rewrite Hq2. split; [done |].
      apply generate_Ok in Hq2 as (_ & ? & Hids2 & _ & ->).
      rewrite Hids' in Hids2. injection Hids2 as <-.
      by rewrite Hsorted, Htext. }
  split.
  - destruct (Hrun p1) as (p2 & Hp2 & Hf2). exists p2. split; [done |].
    by rewrite Hf2, Hfiles, written_twice.
  - intros q. destruct (Hrun q) as (q2 & Hq2 & Hf2). exists q2.
    split; [done |]. intros language Hin. rewrite Hf2, Hfiles.
    apply written_lookup_fresh. by rewrite sorted_Permutation.
Qed.

(** C8: when the corpus cannot be found ([LookupError] from the corpus
    reader) the script writes the two lines that say so and how to
    download it, and exits with status 1; any other exception gets
    [Error: ] and its text on the error stream and exit status 1; the
    status is 0 only when nothing was raised. *)
Theorem main_failure w p :
  (∀ e, os_makedirs w (data_dir script_dir) = None ->
        nltk_fileids w = Raise e ->
        is_LookupError (exn_cls e) = true ->
        ∃ q, main script_dir w p = (q, 1)
             ∧ stderr q = stderr p ++ corpus_hint
             ∧ files q = files p)
  ∧ (∀ e p', generate script_dir w p = (Raise e, p') ->
       ∃ q, main script_dir w p = (q, 1)
            ∧ stderr q
              = stderr p
                ++ (if is_LookupError (exn_cls e) then corpus_hint
                    else py "Error: " ++ exn_str e ++ [NEWLINE])
            ∧ stderr q ≠ stderr p)
  ∧ ((main script_dir w p).2 = 0
     ↔ ∃ p', generate script_dir w p = (Ok (), p')).
Proof.
  assert (Hraise : ∀ e p', generate script_dir w p = (Raise e, p') ->
    ∃ q, main script_dir w p = (q, 1)
         ∧ stderr q
           = stderr p
             ++ (if is_LookupError (exn_cls e) then corpus_hint
                 else py "Error: " ++ exn_str e ++ [NEWLINE])
         ∧ files q = files p').
  { intros e p' Hgen. unfold main. rewrite Hgen.
    apply generate_stderr in Hgen.
    destruct (is_LookupError (exn_cls e)); cbn [stderr_write files stderr];
      eexists; (split; [reflexivity |]); cbn [stderr files];
      rewrite Hgen; unfold corpus_hint; by rewrite <- ?app_assoc. }
  split; [| split].
  - intros e Hmk Hids Hlookup.
    destruct (Hraise e {| files := files p;
                          stdout := stdout p
                            ++ (py "Creating stopwords data files in "
                                ++ data_dir script_dir ++ py "/")
                            ++ [NEWLINE];
                          stderr := stderr p |}) as (q & Hq & Herr & Hfiles).
    { rewrite generate_run, Hmk. cbn [print]. by rewrite Hids. }
    exists q. rewrite Hlookup in Herr. done.
  - intros e p' Hgen. destruct (Hraise e p' Hgen) as (q & Hq & Herr & _).
    exists q. split; [done |]. split; [done |]. rewrite Herr.
    intros Heq. rewrite <- (app_nil_r (stderr p)) in Heq at 2.
    apply app_inv_head in Heq.
    destruct (is_LookupError (exn_cls e)); vm_compute in Heq; discriminate.
  - unfold main. destruct (generate script_dir w p) as [[[] | e] p'].
    + split; [eauto | done].
    + destruct (is_LookupError (exn_cls e)); cbn; split; try done;
        by intros [? ?].
Qed.

End GeneratorTheorems.

(** * The theorems at the example data *)

Lemma filter_stopwords_as_specified_witness :
  load_stopwords (U:=ascii_only) demo_dir demo_fs (py "english")
  = Ok demo_stopwords
  ∧ (∃ result,
       filter_stopwords (U:=ascii_only) demo_dir demo_fs demo_text
                        (py "english") false = Ok result
       ∧ filtered_as_specified (U:=ascii_only) demo_stopwords demo_text result
       ∧ ∀ r, filtered_as_specified (U:=ascii_only) demo_stopwords demo_text r
              -> r = result)
  ∧ filter_stopwords (U:=ascii_only) demo_dir demo_fs [] (py "english") false
    = Ok [].
Proof.
  split; [vm_compute; reflexivity |].
  apply filter_stopwords_as_specified. vm_compute. reflexivity.
Defined.

Lemma count_words_consistent_witness :
  count_words (U:=ascii_only) demo_dir demo_fs demo_text (py "english") false
  = Ok demo_counts
  ∧ filter_stopwords (U:=ascii_only) demo_dir demo_fs demo_text
                     (py "english") false = Ok demo_words
  ∧ sum_values demo_counts = length demo_words
  ∧ dom demo_counts = list_to_set demo_words
  ∧ (∀ word, word ∈ demo_words ->
             demo_counts !! word = Some (occurrences word demo_words))
  ∧ (∀ word n, demo_counts !! word = Some n ->
               word ∈ demo_words ∧ n = occurrences word demo_words).
Proof.
  split; [vm_compute; reflexivity |]. split; [vm_compute; reflexivity |].
  apply (count_words_consistent (U:=ascii_only) demo_dir demo_fs demo_text
                                (py "english") false);
    vm_compute; reflexivity.
Defined.


Lemma load_stopwords_entries_witness :
  demo_fs !! data_file demo_dir (py "english") = Some (TextFile demo_english)
  ∧ load_stopwords (U:=ascii_only) demo_dir demo_fs (py "english")
    = Ok demo_stopwords
  ∧ readlines demo_english
    = [py "a" ++ [NEWLINE]; py "it" ++ [NEWLINE];
       py "The " ++ [NEWLINE]; py "the" ++ [NEWLINE]]
  ∧ demo_stopwords
    = list_to_set ((fun line => lower (U:=ascii_only)
                                  (strip (U:=ascii_only) line))
                   <$> readlines demo_english)
  ∧ (∀ w, w ∈ demo_stopwords
          ↔ ∃ line, line ∈ readlines demo_english
                    ∧ w = lower (U:=ascii_only)
                            (strip (U:=ascii_only) line))
  ∧ Forall2 ascii_lowered (py "The") (py "the").
Proof.
  assert (Hfile : demo_fs !! data_file demo_dir (py "english")
                  = Some (TextFile demo_english))
    by (vm_compute; reflexivity).
  assert (Hdemo : load_stopwords (U:=ascii_only) demo_dir demo_fs
                    (py "english") = Ok demo_stopwords)
    by (vm_compute; reflexivity).
  destruct (load_stopwords_entries (U:=ascii_only) demo_dir demo_fs
              (py "english") demo_english Hfile)
    as (sw & Hload & Hset & _ & Hiff & _ & _ & Hline).
  assert (sw = demo_stopwords) as -> by congruence.
  split; [exact Hfile |]. split; [exact Hdemo |].
  split; [vm_compute; reflexivity |]. split; [exact Hset |].
  split; [exact Hiff |].
  assert (Hin : py "The " ++ [NEWLINE] ∈ readlines demo_english).
  { vm_compute. do 2 (apply elem_of_cons; right). apply elem_of_cons. by left. }
  destruct (Hline _ Hin) as (_ & _ & Hlow).
  apply Hlow. by repeat constructor.
Defined.

Lemma load_stopwords_missing_witness :
  demo_fs !! data_file demo_dir (py "french") = None
  ∧ load_stopwords (U:=ascii_only) demo_dir demo_fs (py "french")
    = Raise (Exn FileNotFoundError
                 (py "Stopwords file not found: "
                  ++ py "/opt/stopwords/data/french.txt"))
  ∧ load_stopwords (U:=ascii_only) demo_dir directory_fs (py "english")
    = Raise (Exn IsADirectoryError
                 (py "[Errno 21] Is a directory: '/opt/stopwords/data/english.txt'")).
Proof.
  split; [vm_compute; reflexivity |]. split.
  - apply (proj1 (load_stopwords_missing (U:=ascii_only) demo_dir demo_fs
                                         (py "french"))).
    vm_compute. reflexivity.
  - apply (proj1 (proj2 (load_stopwords_missing (U:=ascii_only) demo_dir
                           directory_fs (py "english")))).
    vm_compute. reflexivity.
Defined.

(** C4 as the specification states it fails: an [english.txt] that exists
    and is not valid UTF-8 gives no set; the loader raises the decoder's
    [UnicodeDecodeError]. *)
Lemma load_stopwords_undecodable_file :
  is_Some (garbled_fs !! data_file demo_dir (py "english"))
  ∧ (∀ stopwords,
       load_stopwords (U:=ascii_only) demo_dir garbled_fs (py "english")
       ≠ Ok stopwords)
  ∧ ∃ e, load_stopwords (U:=ascii_only) demo_dir garbled_fs (py "english")
         = Raise e
         ∧ exn_cls e = UnicodeDecodeError.
Proof.
  split; [by eexists; vm_compute |]. split.
  - intros stopwords. vm_compute. discriminate.
  - eexists. split; [vm_compute; reflexivity | reflexivity].
Qed.

(** C5 as the specification states it fails: the loader raises although the
    file is not missing, when [english.txt] is a directory; what it raises
    is the [IsADirectoryError] of [open], not [FileNotFoundError]. *)
Lemma load_stopwords_raises_on_directory :
  directory_fs !! data_file demo_dir (py "english") ≠ None
  ∧ ∃ e, load_stopwords (U:=ascii_only) demo_dir directory_fs (py "english")
         = Raise e
         ∧ exn_cls e = IsADirectoryError
         ∧ exn_cls e ≠ FileNotFoundError.
Proof.
  split; [vm_compute; discriminate |].
  eexists. split; [vm_compute; reflexivity |]. split; [reflexivity | discriminate].
Qed.

Lemma filter_stopwords_keep_punctuation_witness :
  load_stopwords (U:=ascii_only) demo_dir demo_fs (py "english")
  = Ok demo_stopwords
  ∧ (py "hello," ∉ demo_stopwords)
  ∧ (py "world!!" ∉ demo_stopwords)
  ∧ filter_stopwords (U:=ascii_only) demo_dir demo_fs
                     (py "Hello,   world!!") (py "english") true
    = Ok [py "hello,"; py "world!!"].
Proof.
  assert (H1 : py "hello," ∉ demo_stopwords).
  { apply (bool_decide_unpack _). vm_compute. exact I. }
  assert (H2 : py "world!!" ∉ demo_stopwords).
  { apply (bool_decide_unpack _). vm_compute. exact I. }
  split; [vm_compute; reflexivity |]. split; [exact H1 |].
  split; [exact H2 |].
  apply (proj2 (filter_stopwords_keep_punctuation (U:=ascii_only) demo_dir
                  demo_fs (py "Hello,   world!!") (py "english")
                  demo_stopwords ltac:(vm_compute; reflexivity)));
    assumption.
Defined.

Lemma generator_rerun_witness :
  main demo_dir demo_corpus fresh_process = (demo_generated, 0)
  ∧ (∃ p2, main demo_dir demo_corpus_reordered demo_generated = (p2, 0)
           ∧ files p2 = files demo_generated)
  ∧ (∀ q, ∃ q2,
       main demo_dir demo_corpus_reordered q = (q2, 0)
       ∧ ∀ language, language ∈ [py "german"; py "english"] ->
           files q2 !! output_file demo_dir language
           = files demo_generated !! output_file demo_dir language).
Proof.
  split; [vm_compute; reflexivity |].
  apply (generator_rerun demo_dir demo_corpus
           demo_corpus_reordered fresh_process demo_generated
           [py "german"; py "english"] [py "english"; py "german"]).
  - reflexivity.
  - reflexivity.
  - apply perm_swap.
  - intros language. reflexivity.
  - intros path. reflexivity.
  - intros path. reflexivity.
  - vm_compute. reflexivity.
Defined.

Lemma main_failure_witness :
  os_makedirs missing_corpus (data_dir demo_dir) = None
  ∧ ∃ q, main demo_dir missing_corpus fresh_process = (q, 1)
         ∧ stderr q = stderr fresh_process ++ corpus_hint
         ∧ files q = files fresh_process.
Proof.
  split; [reflexivity |].
  apply (proj1 (main_failure demo_dir missing_corpus fresh_process)
               (Exn LookupError (py "Resource stopwords not found."))).
  - reflexivity.
  - reflexivity.
  - reflexivity.
Defined.

Lemma count_words_positive_witness :
  count_words (U:=ascii_only) demo_dir demo_fs demo_text (py "english") false
  = Ok demo_counts
  ∧ (∀ word n, demo_counts !! word = Some n -> 1 ≤ n)
  ∧ demo_counts !! [] = None.
Proof.
  split; [vm_compute; reflexivity |].
  apply (count_words_positive (U:=ascii_only) demo_dir demo_fs demo_text
                              (py "english") false).
  vm_compute. reflexivity.
Defined.

Lemma filter_stopwords_word_tokens_witness :
  filter_stopwords (U:=ascii_only) demo_dir demo_fs demo_text
                   (py "english") false = Ok demo_words
  ∧ Forall (fun t => t ≠ []
                     ∧ Forall (fun c => is_word (U:=ascii_only) c = true
                                        ∧ isspace (U:=ascii_only) c = false
                                        ∧ c ≠ APOSTROPHE) t) demo_words.
Proof.
  split; [vm_compute; reflexivity |].
  apply (filter_stopwords_word_tokens (U:=ascii_only) demo_dir demo_fs
                                      demo_text (py "english")).
  vm_compute. reflexivity.
Defined.


(** * The examples of the specification *)

Example filter_quick_brown_fox :
  filter_stopwords (U:=ascii_only) demo_dir demo_fs
                   (py "The quick brown fox") (py "english") false
  = Ok [py "quick"; py "brown"; py "fox"].
Proof. vm_compute. reflexivity. Qed.

Example filter_its_a_test :
  filter_stopwords (U:=ascii_only) demo_dir demo_fs
                   (py "It's a test.") (py "english") false
  = Ok [py "test"].
Proof. vm_compute. reflexivity. Qed.

(** Only ['s] goes: the [t] of [don't] stays as a token of its own. *)
Example filter_other_contraction :
  filter_stopwords (U:=ascii_only) demo_dir demo_fs
                   (py "Don't touch Sam's hat") (py "english") false
  = Ok [py "don"; py "t"; py "touch"; py "sam"; py "hat"].
Proof. vm_compute. reflexivity. Qed.

(** An ['s] that a word character follows is no suffix. *)
Example sub_possessive_inside_word :
  sub_possessive (U:=ascii_only) (py "it's 'said'") = py "it  'said'".
Proof. vm_compute. reflexivity. Qed.

Example generated_english_file :
  files demo_generated !! py "/opt/stopwords/data/english.txt"
  = Some (TextFile (unlines [py "a"; py "it"; py "the"])).
Proof. vm_compute. reflexivity. Qed.

(** * Further properties *)

(** ** Texts put together with a space *)

Section JoinFacts.
Context {U : UnicodeData}.

Lemma push_token_app t ts ts' :
  push_token t (ts ++ ts') = push_token t ts ++ ts'.
Proof. by destruct t. Qed.

Lemma split_scan_sep a c b :
  isspace c = true ->
  split_scan (a ++ c :: b) = ((split_scan a).1, (split_scan a).2 ++ split b).
Proof.
  intros Hc. induction a as [|x a IH]; cbn [app split_scan].
  - rewrite Hc. unfold split. by destruct (split_scan b).
  - rewrite IH. destruct (split_scan a) as [t ts]. cbn [fst snd].
    destruct (isspace x); [| done]. by rewrite push_token_app.
Qed.

(** Splitting goes side by side across a whitespace character. *)
Lemma split_sep a c b :
  isspace c = true -> split (a ++ c :: b) = split a ++ split b.
Proof.
  intros Hc. unfold split at 1 2. rewrite split_scan_sep by done.
  destruct (split_scan a) as [t ts]. cbn [fst snd]. apply push_token_app.
Qed.

Lemma split_token t : t ≠ [] -> solid t -> split t = [t].
Proof.
  intros Hne Hsol. symmetry. apply whitespace_split_unique.
  assert (H : whitespace_split ([] ++ t ++ []) [t]).
  { apply ws_token; try done; constructor. constructor. }
  cbn [app] in H. by rewrite app_nil_r in H.
Qed.

(** [' '.join(l).split()] gives [l] back when its strings are tokens. *)
Lemma split_join_with l :
  Forall (fun t => t ≠ [] ∧ solid t) l -> split (join_with (py " ") l) = l.
Proof.
  induction 1 as [|t l [Hne Hsol] Hl IH]; [done |].
  destruct l as [|t' l]; [by apply split_token |].
  change (join_with (py " ") (t :: t' :: l))
    with (t ++ SPACE :: join_with (py " ") (t' :: l)).
  rewrite split_sep by apply isspace_SPACE.
  by rewrite split_token, IH.
Qed.

Lemma sub_possessive_cons c c' s :
  sub_possessive (c :: c' :: s)
  = if N.eqb c APOSTROPHE && N.eqb c' LETTER_s
       && word_boundary (Some c') (head s)
    then SPACE :: sub_possessive s
    else c :: sub_possessive (c' :: s).
Proof. reflexivity. Qed.

(** A suffix before a space is a suffix at the end of a text, and none
    reaches across a space. *)
Lemma sub_possessive_sep a b :
  sub_possessive (a ++ SPACE :: b)
  = sub_possessive a ++ SPACE :: sub_possessive b.
Proof.
  assert (Hsp : ∀ s, sub_possessive (SPACE :: s) = SPACE :: sub_possessive s)
    by by intros [|? ?].
  induction a as [| c | c c' a IH1 IH2] using str_ind2.
  - apply Hsp.
  - cbn [app]. rewrite sub_possessive_cons.
    change (N.eqb SPACE LETTER_s) with false.
    by rewrite andb_false_r, Hsp.
  - change ((c :: c' :: a) ++ SPACE :: b)
      with (c :: c' :: (a ++ SPACE :: b)).
    rewrite !sub_possessive_cons.
    assert (Hb : N.eqb c' LETTER_s
                 && word_boundary (Some c') (head (a ++ SPACE :: b))
                 = N.eqb c' LETTER_s && word_boundary (Some c') (head a)).
    { destruct (N.eqb_spec c' LETTER_s) as [-> | _]; [| done].
      by destruct a. }
    rewrite <- !andb_assoc, Hb.
    destruct (N.eqb c APOSTROPHE
              && (N.eqb c' LETTER_s && word_boundary (Some c') (head a))).
    + by rewrite IH1.
    + change (c' :: a ++ SPACE :: b) with ((c' :: a) ++ SPACE :: b).
      by rewrite IH2.
Qed.

Lemma sub_punctuation_sep a b :
  sub_punctuation (a ++ SPACE :: b)
  = sub_punctuation a ++ SPACE :: sub_punctuation b.
Proof. unfold sub_punctuation. by rewrite map_app. Qed.

Lemma lower_sep a b :
  ascii_text a -> ascii_text b ->
  lower (a ++ SPACE :: b) = lower a ++ SPACE :: lower b.
Proof.
  intros Ha Hb. rewrite !lower_ascii_text; try done.
  - by rewrite map_app.
  - apply Forall_app. split; [done |]. by constructor.
Qed.

End JoinFacts.

(** ** Lowered ASCII texts *)

Lemma ascii_lower_lowered c : is_ascii c = true -> lowered (ascii_lower c).
Proof.
  unfold lowered, is_ascii, ascii_lower. intros Hc%N.ltb_lt.
  destruct ((65 <=? c)%N && (c <=? 90)%N) eqn:E.
  - apply andb_true_iff in E as [E1%N.leb_le E2%N.leb_le].
    split; [apply N.ltb_lt; lia |].
    replace ((65 <=? c + 32)%N && (c + 32 <=? 90)%N) with false; [done |].
    symmetry. apply andb_false_iff. right. apply N.leb_gt. lia.
  - split; [by apply N.ltb_lt | by rewrite E].
Qed.

Lemma lowered_SPACE : lowered SPACE.
Proof. by split. Qed.

Section LoweredFacts.
Context {U : UnicodeData}.

Lemma lower_lowered s : Forall lowered s -> lower s = s.
Proof.
  intros Hs. rewrite lower_ascii_text.
  - induction Hs as [|c s [_ Hc] Hs IH]; [done |]. cbn [map]. by rewrite Hc, IH.
  - eapply Forall_impl; [exact Hs |]. by intros c [? _].
Qed.

Lemma lower_ascii_lowered s : ascii_text s -> Forall lowered (lower s).
Proof.
  intros Hs. rewrite lower_ascii_text by done.
  apply Forall_map. eapply Forall_impl; [exact Hs |].
  intros c Hc. by apply ascii_lower_lowered.
Qed.

(** The substitutions put spaces in and nothing else. *)
Lemma sub_possessive_Forall (Q : N -> Prop) s :
  Q SPACE -> Forall Q s -> Forall Q (sub_possessive s).
Proof.
  intros Hsp. induction s as [| c | c c' s IH1 IH2] using str_ind2;
    [done | done |].
  intros Hs. rewrite sub_possessive_cons.
  apply Forall_cons_1 in Hs as [Hc Hs].
  destruct (_ && _).
  - constructor; [done |]. apply IH1. by apply Forall_cons_1 in Hs as [_ ?].
  - constructor; [done |]. by apply IH2.
Qed.

Lemma sub_punctuation_Forall (Q : N -> Prop) s :
  Q SPACE -> Forall Q s -> Forall Q (sub_punctuation s).
Proof.
  intros Hsp Hs. unfold sub_punctuation. apply Forall_map.
  eapply Forall_impl; [exact Hs |]. intros c Hc. by destruct (negb _).
Qed.

Lemma sub_possessive_id s : APOSTROPHE ∉ s -> sub_possessive s = s.
Proof.
  induction s as [|c s IH]; [done |]. intros [Hc Hs]%not_elem_of_cons.
  destruct s as [|c' s]; [done |]. rewrite sub_possessive_cons.
  rewrite (proj2 (N.eqb_neq c APOSTROPHE)) by done. cbn [andb].
  by rewrite IH.
Qed.

Lemma sub_punctuation_id s :
  Forall (fun c => is_word c = true ∨ isspace c = true) s ->
  sub_punctuation s = s.
Proof.
  induction 1 as [|c s Hc Hs IH]; [done |].
  unfold sub_punctuation in *. cbn [map]. rewrite IH. f_equal.
  by destruct Hc as [-> | ->]; rewrite ?orb_true_r.
Qed.

Lemma join_with_Forall (Q : N -> Prop) l :
  Q SPACE -> Forall (Forall Q) l -> Forall Q (join_with (py " ") l).
Proof.
  intros Hsp. induction 1 as [|t l Ht Hl IH]; [constructor |].
  destruct l as [|t' l]; [done |].
  change (join_with (py " ") (t :: t' :: l))
    with (t ++ SPACE :: join_with (py " ") (t' :: l)).
  apply Forall_app. split; [done |]. by constructor.
Qed.

Lemma tokenize_sep a b flag :
  ascii_text a -> ascii_text b ->
  tokenize (a ++ SPACE :: b) flag = tokenize a flag ++ tokenize b flag.
Proof.
  intros Ha Hb. unfold tokenize. rewrite lower_sep by done.
  destruct flag.
  - apply split_sep, isspace_SPACE.
  - rewrite sub_possessive_sep, sub_punctuation_sep.
    apply split_sep, isspace_SPACE.
Qed.

(** The tokens of a text, whatever the flag: not empty, without
    whitespace, and made of characters with a property that the characters
    of the lowered text and the space have. *)
Lemma tokenize_tokens (Q : N -> Prop) text flag :
  Q SPACE -> Forall Q (lower text) ->
  Forall (fun t => t ≠ [] ∧ solid t ∧ Forall Q t) (tokenize text flag).
Proof.
  intros Hsp Hs. unfold tokenize. destruct flag.
  - by apply (whitespace_split_tokens Q _ _ (split_whitespace_split _)).
  - apply (whitespace_split_tokens Q _ _ (split_whitespace_split _)).
    by apply sub_punctuation_Forall, sub_possessive_Forall.
Qed.

End LoweredFacts.

(** ** The filter and the counter, further *)

Lemma filter_all {A} (P : A -> Prop) `{∀ x, Decision (P x)} (l : list A) :
  Forall P l -> filter P l = l.
Proof.
  induction 1 as [|x l Hx Hl IH]; [done |].
  by rewrite filter_cons_True, IH.
Qed.

Lemma occurrences_app word l1 l2 :
  occurrences word (l1 ++ l2) = occurrences word l1 + occurrences word l2.
Proof. unfold occurrences. by rewrite filter_app, length_app. Qed.

Lemma tally_default l word :
  default 0 (foldl count_up (∅ : gmap (list N) nat) l !! word)
  = occurrences word l.
Proof.
  rewrite foldl_count_up_lookup, lookup_empty.
  destruct (decide (word ∈ l)); [done |]. by rewrite occurrences_absent.
Qed.

Section FilterExtras.
Context {U : UnicodeData} (script_dir : str).

Lemma count_words_Ok fs text language flag stopwords :
  load_stopwords script_dir fs language = Ok stopwords ->
  count_words script_dir fs text language flag
  = Ok (foldl count_up ∅ (filter (kept stopwords) (tokenize text flag))).
Proof.
  intros H. unfold count_words. rewrite H. cbn. f_equal.
  apply (foldl_count_filter stopwords (tokenize text flag)).
Qed.

Lemma kept_tokens stopwords text flag :
  Forall (fun t => (t ∉ stopwords) ∧ t ≠ [] ∧ solid t)
         (filter (kept stopwords) (tokenize text flag)).
Proof.
  apply Forall_forall. intros t [[Hne Hout] Hin]%list_elem_of_filter.
  pose proof (tokenize_tokens (fun _ => True) text flag I
                (Forall_true _ _ (fun _ => I))) as Htok.
  rewrite Forall_forall in Htok. destruct (Htok t Hin) as (_ & Hsol & _).
  done.
Qed.

(** With punctuation stripped the tokens are made of word characters. *)
Lemma tokenize_word_chars text :
  Forall (Forall (fun c => is_word c = true)) (tokenize text false).
Proof.
  pose proof (whitespace_split_tokens _ _ _
                (split_whitespace_split _)
                (sub_punctuation_chars (sub_possessive (lower text)))) as H.
  unfold tokenize. eapply Forall_impl; [exact H |].
  intros t (_ & Hsol & Hchars). apply Forall_forall. intros c Hc.
  unfold solid in Hsol. rewrite Forall_forall in Hsol, Hchars.
  specialize (Hsol c Hc). destruct (Hchars c Hc); [done | congruence].
Qed.

Lemma word_chars_joined l :
  Forall (Forall (fun c => is_word c = true)) l ->
  Forall (fun c => is_word c = true ∨ c = SPACE) (join_with (py " ") l).
Proof.
  intros Hl. apply join_with_Forall; [by right |].
  eapply Forall_impl; [exact Hl |]. intros t Ht.
  eapply Forall_impl; [exact Ht |]. by left.
Qed.

(** X1: the filter works through a text piece by piece: for ASCII texts
    [a] and [b] and either flag, the text [a + " " + b] gives the result
    for [a] followed by the result for [b]. *)
Theorem filter_stopwords_join fs a b language flag la lb :
  ascii_text a -> ascii_text b ->
  filter_stopwords script_dir fs a language flag = Ok la ->
  filter_stopwords script_dir fs b language flag = Ok lb ->
  filter_stopwords script_dir fs (a ++ SPACE :: b) language flag
  = Ok (la ++ lb).
Proof.
  intros Ha Hb (sw & Hload & ->)%filter_stopwords_inv
         (sw' & Hload' & ->)%filter_stopwords_inv.
  rewrite Hload in Hload'. injection Hload' as <-.
  rewrite (filter_stopwords_Ok _ _ _ _ _ _ Hload), tokenize_sep by done.
  by rewrite filter_app.
Qed.

(** X2: the counts add up the same way: for ASCII texts [a] and [b] the
    count of every word in [a + " " + b] is its count in [a] plus its count
    in [b] (a word that is no key counting 0). *)
Theorem count_words_join fs a b language flag ca cb :
  ascii_text a -> ascii_text b ->
  count_words script_dir fs a language flag = Ok ca ->
  count_words script_dir fs b language flag = Ok cb ->
  ∃ cab,
    count_words script_dir fs (a ++ SPACE :: b) language flag = Ok cab
    ∧ ∀ word, default 0 (cab !! word)
              = default 0 (ca !! word) + default 0 (cb !! word).
Proof.
  intros Ha Hb (la & Hla & ->)%count_words_tally
         (lb & Hlb & ->)%count_words_tally.
  apply filter_stopwords_inv in Hla as (sw & Hload & ->).
  apply filter_stopwords_inv in Hlb as (sw' & Hload' & ->).
  rewrite Hload in Hload'. injection Hload' as <-.
  eexists. split; [by apply count_words_Ok |].
  intros word. rewrite tokenize_sep, filter_app, !tally_default by done.
  apply occurrences_app.
Qed.

(** X4: whatever the flag, no returned token is a stop word of the loaded
    set, none is empty, and none holds a whitespace character. *)
Theorem filter_stopwords_excludes fs text language flag stopwords l :
  load_stopwords script_dir fs language = Ok stopwords ->
  filter_stopwords script_dir fs text language flag = Ok l ->
  Forall (fun t => (t ∉ stopwords) ∧ t ≠ [] ∧ solid t) l.
Proof.
  intros Hload Hl. rewrite (filter_stopwords_Ok _ _ _ _ _ _ Hload) in Hl.
  injection Hl as <-. apply kept_tokens.
Qed.

(** X3: filtering what the filter returned, joined by spaces as the
    command line prints it, returns the same list again (ASCII text,
    either flag). *)
Theorem filter_stopwords_idempotent fs text language flag l :
  ascii_text text ->
  filter_stopwords script_dir fs text language flag = Ok l ->
  filter_stopwords script_dir fs (join_with (py " ") l) language flag
  = Ok l.
Proof.
  intros Hascii Hl.
  pose proof Hl as (sw & Hload & Heq)%filter_stopwords_inv.
  pose proof (kept_tokens sw text flag) as Hex. rewrite <- Heq in Hex.
  assert (Htok : Forall (fun t => t ≠ [] ∧ solid t ∧ Forall lowered t) l).
  { rewrite Heq. apply Forall_forall. intros t [_ Hin]%list_elem_of_filter.
    pose proof (tokenize_tokens lowered text flag lowered_SPACE
                  (lower_ascii_lowered _ Hascii)) as H.
    rewrite Forall_forall in H. by apply H. }
  assert (Hlow : lower (join_with (py " ") l) = join_with (py " ") l).
  { apply lower_lowered, join_with_Forall; [apply lowered_SPACE |].
    eapply Forall_impl; [exact Htok |]. by intros t (_ & _ & ?). }
  assert (Hsplit : split (join_with (py " ") l) = l).
  { apply split_join_with. eapply Forall_impl; [exact Htok |].
    by intros t (? & ? & _). }
  assert (Hkept : filter (kept sw) l = l).
  { apply filter_all. eapply Forall_impl; [exact Hex |].
    by intros t (? & ? & _). }
  rewrite (filter_stopwords_Ok _ _ _ _ _ _ Hload). f_equal.
  unfold tokenize. rewrite Hlow. destruct flag; [by rewrite Hsplit |].
  assert (Hword : Forall (fun c => is_word c = true ∨ c = SPACE)
                         (join_with (py " ") l)).
  { apply word_chars_joined. rewrite Heq. apply Forall_forall.
    intros t [_ Hin]%list_elem_of_filter.
    pose proof (tokenize_word_chars text) as Hw.
    rewrite Forall_forall in Hw. by apply Hw. }
  rewrite sub_possessive_id, sub_punctuation_id, Hsplit; [done | |].
  - eapply Forall_impl; [exact Hword |].
    intros c [? | ->]; [by left | right; apply isspace_SPACE].
  - rewrite Forall_forall in Hword. intros Hin.
    destruct (Hword _ Hin) as [Hw | Hsp]; [| done].
    by rewrite is_word_APOSTROPHE in Hw.
Qed.

(** X5: the filter and the counter raise exactly what the loader raises,
    whatever it is and for every text and flag, and return whenever the
    loader returns: nothing after the loading can fail.  With the data
    file missing both raise the loader's [FileNotFoundError]. *)
Theorem loader_failure_propagates fs text language flag :
  (∀ e, load_stopwords script_dir fs language = Raise e ->
        filter_stopwords script_dir fs text language flag = Raise e
        ∧ count_words script_dir fs text language flag = Raise e)
  ∧ (∀ stopwords,
       load_stopwords script_dir fs language = Ok stopwords ->
       ∃ l counts,
         filter_stopwords script_dir fs text language flag = Ok l
         ∧ count_words script_dir fs text language flag = Ok counts)
  ∧ (fs !! data_file script_dir language = None ->
     filter_stopwords script_dir fs text language flag
     = Raise (Exn FileNotFoundError
                  (py "Stopwords file not found: "
                   ++ data_file script_dir language))
     ∧ count_words script_dir fs text language flag
       = Raise (Exn FileNotFoundError
                    (py "Stopwords file not found: "
                     ++ data_file script_dir language))).
Proof.
  split; [| split].
  - intros e He. unfold filter_stopwords, count_words. by rewrite He.
  - intros sw Hsw. unfold filter_stopwords, count_words. rewrite Hsw.
    by eexists _, _.
  - intros Hmiss. unfold filter_stopwords, count_words, load_stopwords.
    by rewrite Hmiss.
Qed.

(** X6: a text whose lowered form has no word character (punctuation and
    whitespace only) gives the empty list and the empty map when
    punctuation is stripped. *)
Theorem filter_stopwords_nothing_to_keep fs text language stopwords :
  load_stopwords script_dir fs language = Ok stopwords ->
  Forall (fun c => is_word c = false) (lower text) ->
  filter_stopwords script_dir fs text language false = Ok []
  ∧ count_words script_dir fs text language false = Ok ∅.
Proof.
  intros Hload Hno.
  assert (Htok : tokenize text false = []).
  { unfold tokenize.
    pose proof (sub_possessive_Forall (fun c => is_word c = false) _
                  is_word_SPACE Hno) as Hposs.
    assert (Hblank : blank (sub_punctuation (sub_possessive (lower text)))).
    { unfold sub_punctuation. apply Forall_map.
      eapply Forall_impl; [exact Hposs |]. intros c Hc. rewrite Hc.
      destruct (isspace c) eqn:Hs; cbn; [done | apply isspace_SPACE]. }
    rewrite <- (app_nil_r (sub_punctuation _)).
    by rewrite split_blank_app. }
  rewrite (filter_stopwords_Ok _ _ _ _ _ _ Hload),
          (count_words_Ok _ _ _ _ _ Hload), Htok.
  done.
Qed.

End FilterExtras.

(** ** The command line *)

Section CommandLineFacts.
Context {U : UnicodeData} (script_dir : str).

(** The filter goes through a list of ASCII texts joined by spaces one
    text at a time. *)
Lemma tokenize_join_with args flag :
  Forall ascii_text args ->
  tokenize (join_with (py " ") args) flag
  = concat (map (fun a => tokenize a flag) args).
Proof.
  induction 1 as [|a args Ha Hargs IH].
  - by destruct flag.
  - destruct args as [|b args]; [cbn; by rewrite app_nil_r |].
    change (join_with (py " ") (a :: b :: args))
      with (a ++ SPACE :: join_with (py " ") (b :: args)).
    rewrite tokenize_sep, IH; [done | done |].
    by apply (join_with_Forall (fun c => is_ascii c = true)).
Qed.

(** X7: when the command returns, it has printed one line: the filtered
    tokens with a space between them.  The line holds no newline of its
    own, splitting it gives the tokens back, and neither the files nor the
    error stream have changed. *)
Theorem cli_main_prints_line argv stdin p q :
  cli_main script_dir argv stdin p = (Ok (), q) ->
  ∃ filtered,
    filter_stopwords script_dir (files p)
      (if (length argv <? 2)%nat then stdin
       else join_with (py " ") (drop 1 argv))
      (py "english") false = Ok filtered
    ∧ stdout q = stdout p ++ join_with (py " ") filtered ++ [NEWLINE]
    ∧ files q = files p
    ∧ stderr q = stderr p
    ∧ (NEWLINE ∉ join_with (py " ") filtered)
    ∧ split (join_with (py " ") filtered) = filtered.
Proof.
  unfold cli_main.
  destruct (filter_stopwords _ _ _ _ _) as [filtered | e] eqn:Hf; [| done].
  unfold print. intros [= <-]. exists filtered. cbn [files stdout stderr].
  pose proof Hf as (sw & Hload & Heq)%filter_stopwords_inv.
  repeat split; try done.
  - assert (Hchars : Forall (fun c => is_word c = true ∨ c = SPACE)
                            (join_with (py " ") filtered)).
    { apply word_chars_joined. rewrite Heq. apply Forall_forall.
      intros t [_ Hin]%list_elem_of_filter.
      pose proof (tokenize_word_chars
                    (if (length argv <? 2)%nat then stdin
                     else join_with (py " ") (drop 1 argv))) as Hw.
      rewrite Forall_forall in Hw. by apply Hw. }
    rewrite Forall_forall in Hchars. intros Hin.
    by destruct (Hchars _ Hin) as [Hword | Hsp].
  - apply split_join_with. rewrite Heq.
    eapply Forall_impl; [apply kept_tokens |]. by intros t (_ & ? & ?).
Qed.

(** X8: without [english.txt] the command raises the loader's
    [FileNotFoundError], which nothing catches, and prints nothing:
    whatever the arguments and the input. *)
Theorem cli_main_missing_file argv stdin p :
  files p !! data_file script_dir (py "english") = None ->
  cli_main script_dir argv stdin p
  = (Raise (Exn FileNotFoundError
                (py "Stopwords file not found: "
                 ++ data_file script_dir (py "english"))), p).
Proof.
  intros Hmiss. unfold cli_main, filter_stopwords, load_stopwords.
  by rewrite Hmiss.
Qed.

(** X9: the arguments are filtered one by one: with ASCII arguments, each
    of which the filter accepts, the line printed is the results for the
    arguments in order, joined by spaces; the input is not looked at. *)
Theorem cli_main_arguments prog args stdin p ls :
  args ≠ [] ->
  Forall ascii_text args ->
  Forall2 (fun a l =>
             filter_stopwords script_dir (files p) a (py "english") false
             = Ok l) args ls ->
  ∃ q, cli_main script_dir (prog :: args) stdin p = (Ok (), q)
       ∧ stdout q
         = stdout p ++ join_with (py " ") (concat ls) ++ [NEWLINE].
Proof.
  intros Hne Hascii Hall. unfold cli_main.
  destruct args as [|a args]; [done |].
  assert (Hlen : (length (prog :: a :: args) <? 2)%nat = false) by done.
  rewrite Hlen. cbn [drop].
  assert (Hload : ∃ sw, load_stopwords script_dir (files p) (py "english")
                        = Ok sw).
  { apply Forall2_cons_inv_l in Hall as (l & ls' & Hl & _ & _).
    apply filter_stopwords_inv in Hl as (sw & ? & _). eauto. }
  destruct Hload as [sw Hload].
  rewrite (filter_stopwords_Ok _ _ _ _ _ _ Hload), tokenize_join_with by done.
  assert (Hls : concat ls
                = filter (kept sw)
                    (concat (map (fun a => tokenize a false) (a :: args)))).
  { clear Hne Hlen Hascii. induction Hall as [|x l xs ls' Hx Hxs IH]; [done |].
    cbn [map concat]. rewrite filter_app, <- IH. f_equal.
    rewrite (filter_stopwords_Ok _ _ _ _ _ _ Hload) in Hx. congruence. }
  rewrite <- Hls. eexists. split; [reflexivity |]. done.
Qed.

End CommandLineFacts.

(** ** The loader, further *)

Lemma translate_newlines_nil s : translate_newlines s = [] -> s = [].
Proof. destruct s as [|c s]; [done |]. cbn. by destruct (N.eqb c RETURN). Qed.

Lemma cut_lines_nil s : cut_lines s = [] -> s = [].
Proof.
  destruct s as [|c s]; [done |]. cbn.
  destruct (N.eqb c NEWLINE); [done |]. by destruct (cut_lines s).
Qed.

Section LoaderExtras.
Context {U : UnicodeData} (script_dir : str).

Lemma lstrip_blank w s : blank w -> lstrip (w ++ s) = lstrip s.
Proof. induction 1 as [|c w Hc Hw IH]; [done |]. cbn. by rewrite Hc. Qed.

Lemma strip_blank w : blank w -> strip w = [].
Proof.
  intros Hw. unfold strip. rewrite <- (app_nil_r w), lstrip_blank by done.
  done.
Qed.

(** Whitespace at the end of a line, its terminator among it, is stripped
    off. *)
Lemma strip_app_blank s w : blank w -> strip (s ++ w) = strip s.
Proof.
  intros Hw. unfold strip, rstrip.
  destruct (lstrip_spec s) as (w0 & Heq & Hw0 & Hhead).
  destruct (lstrip s) as [|c t] eqn:Hl.
  - rewrite app_nil_r in Heq. subst s.
    rewrite <- (app_nil_r (w0 ++ w)), lstrip_blank; [done |].
    by apply Forall_app.
  - assert (lstrip (s ++ w) = (c :: t) ++ w) as ->.
    { rewrite Heq at 1. rewrite <- app_assoc, lstrip_blank by done.
      cbn. apply Forall_cons_1 in Hhead as [-> _]. done. }
    rewrite reverse_app. f_equal. apply lstrip_blank.
    unfold blank. by rewrite Forall_reverse.
Qed.

Lemma load_stopwords_elem fs language content stopwords :
  fs !! data_file script_dir language = Some (TextFile content) ->
  load_stopwords script_dir fs language = Ok stopwords ->
  ∀ w, w ∈ stopwords
       ↔ ∃ line, line ∈ readlines content ∧ w = lower (strip line).
Proof.
  unfold load_stopwords. intros -> [= <-] w. rewrite elem_of_collect.
  split; [| auto]. intros [H | H]; [by apply not_elem_of_empty in H | done].
Qed.

(** X10: the loaded set is empty exactly when the data file is empty:
    every line, a blank one too, puts an entry in. *)
Theorem load_stopwords_empty fs language content stopwords :
  fs !! data_file script_dir language = Some (TextFile content) ->
  load_stopwords script_dir fs language = Ok stopwords ->
  stopwords = ∅ ↔ content = [].
Proof.
  intros Hfile Hload.
  pose proof (load_stopwords_elem _ _ _ _ Hfile Hload) as Hiff. split.
  - intros ->. apply translate_newlines_nil, cut_lines_nil.
    fold (readlines content). destruct (readlines content) as [|line ls]; [done |].
    exfalso. apply (not_elem_of_empty (C := gset (list N)) (lower (strip line))).
    apply Hiff. exists line. split; [left | done].
  - intros ->. apply set_eq. intros w. rewrite Hiff. split.
    + by intros (line & ?%elem_of_nil & _).
    + by intros ?%not_elem_of_empty.
Qed.

(** X11: a line of whitespace only (an empty line, a stray [\r\n]) makes
    the empty string a member of the set. *)
Theorem load_stopwords_blank_line fs language content stopwords line :
  fs !! data_file script_dir language = Some (TextFile content) ->
  load_stopwords script_dir fs language = Ok stopwords ->
  line ∈ readlines content -> blank line ->
  [] ∈ stopwords.
Proof.
  intros Hfile Hload Hline Hblank.
  apply (load_stopwords_elem _ _ _ _ Hfile Hload). exists line. split; [done |]. by rewrite strip_blank.
Qed.

End LoaderExtras.

(** ** Where the data files are *)

Section PathFacts.
Context (script_dir : str).

Lemma ends_with_sep_app a c b :
  ends_with_sep (a ++ c :: b) = ends_with_sep (c :: b).
Proof.
  unfold ends_with_sep. rewrite last_app.
  destruct (last (c :: b)) eqn:E; [done |]. by apply last_None in E.
Qed.

(** X12: a language code that does not start with [/] names the file
    [<script_dir>/data/<language>.txt] (for a script directory that is not
    empty and does not end with [/]); one that starts with [/] is taken as
    an absolute path and the data directory is left out.  The generator
    writes to the path the loader reads. *)
Theorem data_file_resolution language :
  (starts_with_sep language = false ->
   script_dir ≠ [] -> ends_with_sep script_dir = false ->
   data_file script_dir language
   = script_dir ++ py "/data/" ++ language ++ py ".txt")
  ∧ (starts_with_sep language = true ->
     data_file script_dir language = language ++ py ".txt")
  ∧ output_file script_dir language = data_file script_dir language.
Proof.
  split; [| split; [| done]].
  - intros Hrel Hne Hend. unfold data_file, path_join.
    assert (starts_with_sep (language ++ py ".txt") = false) as ->
      by by destruct language.
    change (starts_with_sep (py "data")) with false. cbn match.
    rewrite Hend, (bool_decide_eq_false_2 (script_dir = [])) by done.
    cbn [orb]. rewrite ends_with_sep_app.
    change (ends_with_sep (SLASH :: py "data")) with false.
    rewrite bool_decide_eq_false_2 by by destruct script_dir.
    cbn [orb]. by rewrite <- app_assoc.
  - intros Habs. unfold data_file, path_join.
    assert (starts_with_sep (language ++ py ".txt") = true) as ->
      by by destruct language.
    done.
Qed.

End PathFacts.

(** ** The generator, further *)

Lemma for_each_app {A} (body : A -> io unit) l1 l2 p :
  for_each body (l1 ++ l2) p
  = match for_each body l1 p with
    | (Ok _, p') => for_each body l2 p'
    | (Raise e, p') => (Raise e, p')
    end.
Proof.
  revert p. induction l1 as [|x l1 IH]; intros p; [done |].
  cbn [app for_each]. unfold mbind, io_bind.
  destruct (body x p) as [[[] | e] p']; [apply IH | done].
Qed.

Lemma translate_newlines_id s : RETURN ∉ s -> translate_newlines s = s.
Proof.
  induction s as [|c s IH]; [done |]. intros [Hc Hs]%not_elem_of_cons.
  cbn [translate_newlines]. rewrite (proj2 (N.eqb_neq c RETURN)) by done.
  by rewrite IH.
Qed.

(** Read back, a file of newline-terminated words gives the words, each
    with its terminator. *)
Lemma readlines_unlines ws :
  Forall (fun word => (NEWLINE ∉ word) ∧ (RETURN ∉ word)) ws ->
  readlines (unlines ws) = map (fun word => word ++ [NEWLINE]) ws.
Proof.
  intros Hws. unfold readlines. rewrite translate_newlines_id.
  - induction Hws as [|w ws [Hnl _] Hws IH]; [done |].
    unfold unlines in *. cbn [map concat]. rewrite <- app_assoc. cbn [app].
    by rewrite cut_lines_line, IH.
  - induction Hws as [|w ws [_ Hcr] Hws IH]; [apply not_elem_of_nil |].
    unfold unlines in *. cbn [map concat].
    rewrite !not_elem_of_app. repeat split; try done.
    by intros ?%list_elem_of_singleton.
Qed.

Section GeneratorExtras.
Context {U : UnicodeData} (script_dir : str).

Lemma for_each_generate_language_frame w langs p r q path :
  for_each (generate_language script_dir w) langs p = (r, q) ->
  (∀ l, l ∈ langs -> output_file script_dir l ≠ path) ->
  files q !! path = files p !! path.
Proof.
  revert p. induction langs as [|language langs IH]; intros p.
  - cbn [for_each]. unfold mret, io_ret. by intros [= <- <-].
  - cbn [for_each]. unfold mbind, io_bind at 1.
    rewrite generate_language_run. intros Hrun Hout.
    destruct (nltk_words w language) as [ws | e];
      [| by injection Hrun as <- <-].
    destruct (os_open w (output_file script_dir language)) as [e|];
      [by injection Hrun as <- <- |].
    apply IH in Hrun; [| intros l Hl; apply Hout; by right].
    rewrite Hrun. cbn [files]. apply lookup_insert_ne, Hout. by left.
Qed.

Lemma for_each_generate_language_stdout w langs p q :
  for_each (generate_language script_dir w) langs p = (Ok (), q) ->
  stdout q = stdout p ++ concat (map (created_line w) langs).
Proof.
  revert p. induction langs as [|language langs IH]; intros p.
  - cbn [for_each]. unfold mret, io_ret. intros [= <-].
    by rewrite app_nil_r.
  - cbn [for_each map concat]. unfold mbind, io_bind at 1.
    rewrite generate_language_run. unfold created_line at 1.
    destruct (nltk_words w language) as [ws | e]; [| done].
    destruct (os_open w (output_file script_dir language)) as [e|]; [done |].
    intros Hrun%IH. rewrite Hrun. cbn [stdout].
    by rewrite <- !app_assoc.
Qed.

Lemma generated_file w p q languages language :
  generate script_dir w p = (Ok (), q) ->
  nltk_fileids w = Ok languages ->
  language ∈ languages ->
  Forall (fun l => starts_with_sep l = false) languages ->
  files q !! output_file script_dir language
  = Some (TextFile (file_text w language)).
Proof.
  intros (_ & languages' & Hids & _ & Hfiles)%generate_Ok Hids' Hin Hrel.
  rewrite Hids' in Hids. injection Hids as <-.
  rewrite Forall_forall in Hrel.
  rewrite Hfiles. apply written_lookup; [by rewrite sorted_Permutation |].
  intros l Hl. rewrite sorted_Permutation in Hl.
  apply output_file_inj; auto.
Qed.

(** X13: what the generator writes, the loader reads back: after a
    successful run the loader, given the language of a relative identifier
    whose words hold no line break, returns the set of the corpus words,
    each stripped and lowered. *)
Theorem load_generated w p q languages language ws :
  generate script_dir w p = (Ok (), q) ->
  nltk_fileids w = Ok languages ->
  language ∈ languages ->
  Forall (fun l => starts_with_sep l = false) languages ->
  nltk_words w language = Ok ws ->
  Forall (fun word => (NEWLINE ∉ word) ∧ (RETURN ∉ word)) ws ->
  ∃ stopwords,
    load_stopwords script_dir (files q) language = Ok stopwords
    ∧ ∀ x, x ∈ stopwords ↔ ∃ word, word ∈ ws ∧ x = lower (strip word).
Proof.
  intros Hgen Hids Hin Hrel Hws Hclean.
  pose proof (generated_file _ _ _ _ _ Hgen Hids Hin Hrel) as Hfile.
  unfold file_text in Hfile. rewrite Hws in Hfile.
  change (output_file script_dir language)
    with (data_file script_dir language) in Hfile.
  destruct (load_stopwords script_dir (files q) language) as [sw | e] eqn:Hload;
    [| by unfold load_stopwords in Hload; rewrite Hfile in Hload].
  exists sw. split; [done |]. intros x.
  rewrite (load_stopwords_elem _ _ _ _ _ Hfile Hload).
  rewrite readlines_unlines
    by (eapply Forall_impl; [by rewrite sorted_Permutation | done]).
  assert (Hnl : blank [NEWLINE]) by by constructor.
  split.
  - intros (line & (word & -> & Hword)%list_elem_of_fmap & ->).
    exists word. rewrite sorted_Permutation in Hword.
    by rewrite strip_app_blank.
  - intros (word & Hword & ->). exists (word ++ [NEWLINE]). split.
    + apply list_elem_of_fmap. exists word.
      by rewrite sorted_Permutation.
    + by rewrite strip_app_blank.
Qed.

(** X14: whether it returns or raises, the generator changes no file
    other than the [.txt] files of the languages the corpus lists; when the
    corpus cannot be listed it changes none. *)
Theorem generate_frame w p r q path :
  generate script_dir w p = (r, q) ->
  (∀ languages language,
     nltk_fileids w = Ok languages -> language ∈ languages ->
     output_file script_dir language ≠ path) ->
  files q !! path = files p !! path.
Proof.
  rewrite generate_run. intros Hrun Hout.
  destruct (os_makedirs w (data_dir script_dir)); [by injection Hrun as <- <- |].
  cbn [print] in Hrun.
  destruct (nltk_fileids w) as [languages | e];
    [| by injection Hrun as <- <-].
  destruct (for_each _ _ _) as [r2 p2] eqn:Hloop.
  apply (for_each_generate_language_frame _ _ _ _ _ path) in Hloop.
  - cbn [files] in Hloop. rewrite <- Hloop.
    by destruct r2 as [[] | e]; injection Hrun as <- <-.
  - intros l Hl. rewrite sorted_Permutation in Hl. by apply (Hout languages).
Qed.

(** X15: the run stops at the first language, in sorted order, for which
    the corpus reader or [open] raises: that exception comes out, the files
    of the languages before it are written, and nothing else is. *)
Theorem generate_stops_at_first_failure w p languages before language
    rest e :
  os_makedirs w (data_dir script_dir) = None ->
  nltk_fileids w = Ok languages ->
  sorted languages = before ++ language :: rest ->
  Forall (language_ok script_dir w) before ->
  (nltk_words w language = Raise e
   ∨ (∃ ws, nltk_words w language = Ok ws)
     ∧ os_open w (output_file script_dir language) = Some e) ->
  ∃ q, generate script_dir w p = (Raise e, q)
       ∧ files q = written script_dir w before (files p)
       ∧ (main script_dir w p).2 = 1.
Proof.
  intros Hmk Hids Hsorted Hbefore Hfail.
  assert (Hgen : ∃ q, generate script_dir w p = (Raise e, q)
                      ∧ files q = written script_dir w before (files p)).
  { rewrite generate_run, Hmk. cbn [print]. rewrite Hids, Hsorted, for_each_app.
    edestruct for_each_generate_language_ok as [p1 Hp1]; [exact Hbefore |].
    rewrite Hp1.
    apply for_each_generate_language in Hp1 as [_ Hok].
    destruct (Hok eq_refl) as [Hfiles _]. cbn [files] in Hfiles.
    cbn [for_each]. unfold mbind, io_bind at 1.
    rewrite generate_language_run.
    destruct Hfail as [-> | [[ws ->] ->]]; by eexists. }
  destruct Hgen as (q & Hgen & Hfiles). exists q. split; [done |].
  split; [done |]. unfold main. rewrite Hgen.
  by destruct (is_LookupError (exn_cls e)).
Qed.

(** X16: the exit status is 0 only if the data directory could be made,
    the corpus listed its languages, and for each of them the words could
    be read and the file opened; a status that is not 0 is 1. *)
Theorem main_exit_status w p :
  ((main script_dir w p).2 = 0 ->
   os_makedirs w (data_dir script_dir) = None
   ∧ ∃ languages,
       nltk_fileids w = Ok languages
       ∧ Forall (language_ok script_dir w) languages)
  ∧ ((main script_dir w p).2 ≠ 0 -> (main script_dir w p).2 = 1).
Proof.
  unfold main.
  destruct (generate script_dir w p) as [[[] | e] q] eqn:Hgen.
  - split; [| done]. intros _.
    apply generate_Ok in Hgen as (Hmk & languages & Hids & Hall & _).
    split; [done |]. exists languages. split; [done |].
    by rewrite sorted_Permutation in Hall.
  - by destruct (is_LookupError (exn_cls e)).
Qed.

(** X17: a successful run prints the heading, one [Created] line for each
    language in sorted order with the number of words the corpus gave, and
    the two closing lines; it writes nothing to the error stream. *)
Theorem generate_stdout w p q languages :
  generate script_dir w p = (Ok (), q) ->
  nltk_fileids w = Ok languages ->
  stdout q
  = stdout p
    ++ (py "Creating stopwords data files in " ++ data_dir script_dir
        ++ py "/" ++ [NEWLINE])
    ++ concat (map (created_line w) (sorted languages))
    ++ ([NEWLINE] ++ py "Successfully generated "
        ++ decimal (length languages) ++ py " stopwords files."
        ++ [NEWLINE])
    ++ (py "Available languages: "
        ++ join_with (py ", ") (sorted languages) ++ [NEWLINE])
  ∧ stderr q = stderr p.
Proof.
  intros Hgen Hids. split; [| by apply generate_stderr in Hgen].
  rewrite generate_run in Hgen.
  destruct (os_makedirs w (data_dir script_dir)); [done |].
  cbn [print] in Hgen. rewrite Hids in Hgen.
  destruct (for_each _ _ _) as [[[] | e] p2] eqn:Hloop; [| done].
  apply for_each_generate_language_stdout in Hloop. cbn [stdout] in Hloop.
  apply (f_equal (fun r => stdout r.2)) in Hgen.
  cbn [snd stdout print] in Hgen. rewrite <- Hgen, Hloop.
  by rewrite <- !app_assoc.
Qed.

End GeneratorExtras.

(** * The further properties at the example data *)

Lemma filter_stopwords_join_witness :
  ascii_text (py "The cat") ∧ ascii_text (py "Sam's hat")
  ∧ filter_stopwords (U:=ascii_only) demo_dir demo_fs (py "The cat")
                     (py "english") false = Ok [py "cat"]
  ∧ filter_stopwords (U:=ascii_only) demo_dir demo_fs (py "Sam's hat")
                     (py "english") false = Ok [py "sam"; py "hat"]
  ∧ filter_stopwords (U:=ascii_only) demo_dir demo_fs
                     (py "The cat" ++ SPACE :: py "Sam's hat")
                     (py "english") false
    = Ok ([py "cat"] ++ [py "sam"; py "hat"]).
Proof.
  assert (Ha : ascii_text (py "The cat")) by (by repeat constructor).
  assert (Hb : ascii_text (py "Sam's hat")) by (by repeat constructor).
  split; [exact Ha |]. split; [exact Hb |].
  split; [vm_compute; reflexivity |]. split; [vm_compute; reflexivity |].
  apply (filter_stopwords_join (U:=ascii_only) demo_dir demo_fs
           (py "The cat") (py "Sam's hat") (py "english") false);
    [exact Ha | exact Hb | vm_compute; reflexivity | vm_compute; reflexivity].
Defined.

Lemma count_words_join_witness :
  ascii_text (py "The cat") ∧ ascii_text (py "cat's hat")
  ∧ ∃ cab,
      count_words (U:=ascii_only) demo_dir demo_fs
                  (py "The cat" ++ SPACE :: py "cat's hat")
                  (py "english") false = Ok cab
      ∧ ∀ word,
          default 0 (cab !! word)
          = default 0 (({[ py "cat" := 1 ]} : gmap (list N) nat) !! word)
            + default 0 (({[ py "cat" := 1; py "hat" := 1 ]}
                          : gmap (list N) nat) !! word).
Proof.
  assert (Ha : ascii_text (py "The cat")) by (by repeat constructor).
  assert (Hb : ascii_text (py "cat's hat")) by (by repeat constructor).
  split; [exact Ha |]. split; [exact Hb |].
  apply (count_words_join (U:=ascii_only) demo_dir demo_fs
           (py "The cat") (py "cat's hat") (py "english") false);
    [exact Ha | exact Hb | vm_compute; reflexivity | vm_compute; reflexivity].
Defined.

Lemma filter_stopwords_idempotent_witness :
  ascii_text demo_text
  ∧ filter_stopwords (U:=ascii_only) demo_dir demo_fs demo_text
                     (py "english") false = Ok demo_words
  ∧ filter_stopwords (U:=ascii_only) demo_dir demo_fs
                     (join_with (py " ") demo_words) (py "english") false
    = Ok demo_words.
Proof.
  assert (Ha : ascii_text demo_text) by (by repeat constructor).
  split; [exact Ha |]. split; [vm_compute; reflexivity |].
  apply (filter_stopwords_idempotent (U:=ascii_only) demo_dir demo_fs
           demo_text (py "english") false);
    [exact Ha | vm_compute; reflexivity].
Defined.

Lemma filter_stopwords_excludes_witness :
  load_stopwords (U:=ascii_only) demo_dir demo_fs (py "english")
  = Ok demo_stopwords
  ∧ filter_stopwords (U:=ascii_only) demo_dir demo_fs
                     (py "Hello,   the world!!") (py "english") true
    = Ok [py "hello,"; py "world!!"]
  ∧ Forall (fun t => (t ∉ demo_stopwords) ∧ t ≠ []
                     ∧ solid (U:=ascii_only) t)
           [py "hello,"; py "world!!"].
Proof.
  split; [vm_compute; reflexivity |]. split; [vm_compute; reflexivity |].
  apply (filter_stopwords_excludes (U:=ascii_only) demo_dir demo_fs
           (py "Hello,   the world!!") (py "english") true);
    vm_compute; reflexivity.
Defined.

Lemma loader_failure_propagates_witness :
  load_stopwords (U:=ascii_only) demo_dir directory_fs (py "english")
  = Raise (Exn IsADirectoryError
               (py "[Errno 21] Is a directory: '/opt/stopwords/data/english.txt'"))
  ∧ filter_stopwords (U:=ascii_only) demo_dir directory_fs demo_text
                     (py "english") true
    = Raise (Exn IsADirectoryError
                 (py "[Errno 21] Is a directory: '/opt/stopwords/data/english.txt'"))
  ∧ count_words (U:=ascii_only) demo_dir directory_fs demo_text
                (py "english") true
    = Raise (Exn IsADirectoryError
                 (py "[Errno 21] Is a directory: '/opt/stopwords/data/english.txt'")).
Proof.
  split; [vm_compute; reflexivity |].
  apply (proj1 (loader_failure_propagates (U:=ascii_only) demo_dir
                  directory_fs demo_text (py "english") true)).
  vm_compute. reflexivity.
Defined.

Lemma filter_stopwords_nothing_to_keep_witness :
  load_stopwords (U:=ascii_only) demo_dir demo_fs (py "english")
  = Ok demo_stopwords
  ∧ Forall (fun c => is_word (U:=ascii_only) c = false)
           (lower (U:=ascii_only) (py "?! ... -- ('')"))
  ∧ filter_stopwords (U:=ascii_only) demo_dir demo_fs (py "?! ... -- ('')")
                     (py "english") false = Ok []
  ∧ count_words (U:=ascii_only) demo_dir demo_fs (py "?! ... -- ('')")
                (py "english") false = Ok ∅.
Proof.
  assert (Hno : Forall (fun c => is_word (U:=ascii_only) c = false)
                       (lower (U:=ascii_only) (py "?! ... -- ('')")))
    by (vm_compute; by repeat constructor).
  split; [vm_compute; reflexivity |]. split; [exact Hno |].
  apply (filter_stopwords_nothing_to_keep (U:=ascii_only) demo_dir demo_fs
           (py "?! ... -- ('')") (py "english") demo_stopwords);
    [vm_compute; reflexivity | exact Hno].
Defined.

Lemma cli_main_prints_line_witness :
  cli_main (U:=ascii_only) demo_dir demo_argv [] demo_process
  = (Ok (), demo_after_cli)
  ∧ ∃ filtered,
      filter_stopwords (U:=ascii_only) demo_dir (files demo_process)
        (if (length demo_argv <? 2)%nat then []
         else join_with (py " ") (drop 1 demo_argv))
        (py "english") false = Ok filtered
      ∧ stdout demo_after_cli
        = stdout demo_process ++ join_with (py " ") filtered ++ [NEWLINE]
      ∧ files demo_after_cli = files demo_process
      ∧ stderr demo_after_cli = stderr demo_process
      ∧ (NEWLINE ∉ join_with (py " ") filtered)
      ∧ split (U:=ascii_only) (join_with (py " ") filtered) = filtered.
Proof.
  split; [vm_compute; reflexivity |].
  apply (cli_main_prints_line (U:=ascii_only) demo_dir demo_argv []
           demo_process demo_after_cli).
  vm_compute. reflexivity.
Defined.

Lemma cli_main_missing_file_witness :
  files fresh_process !! data_file demo_dir (py "english") = None
  ∧ cli_main (U:=ascii_only) demo_dir demo_argv [] fresh_process
    = (Raise (Exn FileNotFoundError
                  (py "Stopwords file not found: "
                   ++ data_file demo_dir (py "english"))), fresh_process).
Proof.
  split; [vm_compute; reflexivity |].
  apply (cli_main_missing_file (U:=ascii_only) demo_dir demo_argv []
           fresh_process).
  vm_compute. reflexivity.
Defined.

Lemma cli_main_arguments_witness :
  Forall ascii_text [py "The cat"; py "Sam's hat"]
  ∧ ∃ q,
      cli_main (U:=ascii_only) demo_dir
               [py "stopwords_python.py"; py "The cat"; py "Sam's hat"]
               (py "ignored") demo_process = (Ok (), q)
      ∧ stdout q
        = stdout demo_process
          ++ join_with (py " ") (concat [[py "cat"]; [py "sam"; py "hat"]])
          ++ [NEWLINE].
Proof.
  assert (Ha : Forall ascii_text [py "The cat"; py "Sam's hat"])
    by (by repeat constructor).
  split; [exact Ha |].
  apply (cli_main_arguments (U:=ascii_only) demo_dir
           (py "stopwords_python.py") [py "The cat"; py "Sam's hat"]
           (py "ignored") demo_process [[py "cat"]; [py "sam"; py "hat"]]).
  - discriminate.
  - exact Ha.
  - constructor; [vm_compute; reflexivity |].
    constructor; [vm_compute; reflexivity |]. constructor.
Defined.

Lemma load_stopwords_empty_witness :
  demo_fs !! data_file demo_dir (py "english") = Some (TextFile demo_english)
  ∧ load_stopwords (U:=ascii_only) demo_dir demo_fs (py "english")
    = Ok demo_stopwords
  ∧ (demo_stopwords = ∅ ↔ demo_english = []).
Proof.
  split; [vm_compute; reflexivity |]. split; [vm_compute; reflexivity |].
  apply (load_stopwords_empty (U:=ascii_only) demo_dir demo_fs (py "english"));
    vm_compute; reflexivity.
Defined.

Lemma load_stopwords_blank_line_witness :
  gappy_fs !! data_file demo_dir (py "english")
  = Some (TextFile (unlines [py "a"; []; py "it"]))
  ∧ [NEWLINE] ∈ readlines (unlines [py "a"; []; py "it"])
  ∧ blank (U:=ascii_only) [NEWLINE]
  ∧ load_stopwords (U:=ascii_only) demo_dir gappy_fs (py "english")
    = Ok gappy_stopwords
  ∧ [] ∈ gappy_stopwords.
Proof.
  assert (Hline : [NEWLINE] ∈ readlines (unlines [py "a"; []; py "it"])).
  { vm_compute. apply elem_of_cons. right. apply elem_of_cons. by left. }
  assert (Hblank : blank (U:=ascii_only) [NEWLINE]) by (by repeat constructor).
  split; [vm_compute; reflexivity |]. split; [exact Hline |].
  split; [exact Hblank |]. split; [vm_compute; reflexivity |].
  apply (load_stopwords_blank_line (U:=ascii_only) demo_dir gappy_fs
           (py "english") (unlines [py "a"; []; py "it"]) gappy_stopwords
           [NEWLINE]);
    [vm_compute; reflexivity | vm_compute; reflexivity
     | exact Hline | exact Hblank].
Defined.

Lemma data_file_resolution_witness :
  data_file demo_dir (py "english")
  = demo_dir ++ py "/data/" ++ py "english" ++ py ".txt"
  ∧ data_file demo_dir (py "/etc/hosts") = py "/etc/hosts" ++ py ".txt".
Proof.
  split.
  - apply (proj1 (data_file_resolution demo_dir (py "english")));
      [reflexivity | discriminate | reflexivity].
  - apply (proj1 (proj2 (data_file_resolution demo_dir (py "/etc/hosts")))).
    reflexivity.
Defined.

Lemma load_generated_witness :
  generate demo_dir demo_corpus fresh_process = (Ok (), demo_generated_body)
  ∧ ∃ stopwords,
      load_stopwords (U:=ascii_only) demo_dir (files demo_generated_body)
                     (py "english") = Ok stopwords
      ∧ ∀ x, x ∈ stopwords
             ↔ ∃ word, word ∈ [py "the"; py "a"; py "it"]
                       ∧ x = lower (U:=ascii_only)
                               (strip (U:=ascii_only) word).
Proof.
  split; [vm_compute; reflexivity |].
  apply (load_generated (U:=ascii_only) demo_dir demo_corpus fresh_process
           demo_generated_body [py "german"; py "english"] (py "english")).
  - vm_compute. reflexivity.
  - reflexivity.
  - apply elem_of_cons. right. apply elem_of_cons. by left.
  - by repeat constructor.
  - reflexivity.
  - repeat constructor; by (apply (bool_decide_unpack _); vm_compute).
Defined.

Lemma generate_frame_witness :
  generate demo_dir demo_corpus readme_process = (Ok (), readme_generated)
  ∧ files readme_generated !! py "/opt/stopwords/README.md"
    = files readme_process !! py "/opt/stopwords/README.md".
Proof.
  split; [vm_compute; reflexivity |].
  apply (generate_frame demo_dir demo_corpus readme_process (Ok ())).
  - vm_compute. reflexivity.
  - intros languages language [= <-] Hin.
    apply elem_of_cons in Hin as [-> | Hin]; [by vm_compute |].
    apply elem_of_cons in Hin as [-> | Hin]; [by vm_compute |].
    by apply elem_of_nil in Hin.
Defined.

Lemma generate_stops_at_first_failure_witness :
  sorted [py "german"; py "english"] = [py "english"] ++ py "german" :: []
  ∧ ∃ q,
      generate demo_dir broken_corpus fresh_process
      = (Raise (Exn OSError (py "No such file or directory")), q)
      ∧ files q = written demo_dir broken_corpus [py "english"]
                          (files fresh_process)
      ∧ (main demo_dir broken_corpus fresh_process).2 = 1.
Proof.
  split; [vm_compute; reflexivity |].
  apply (generate_stops_at_first_failure demo_dir broken_corpus fresh_process
           [py "german"; py "english"] [py "english"] (py "german") []).
  - reflexivity.
  - reflexivity.
  - vm_compute. reflexivity.
  - constructor; [| constructor]. split; [by eexists | reflexivity].
  - left. reflexivity.
Defined.

Lemma main_exit_status_witness :
  (main demo_dir demo_corpus fresh_process).2 = 0
  ∧ os_makedirs demo_corpus (data_dir demo_dir) = None
  ∧ ∃ languages,
      nltk_fileids demo_corpus = Ok languages
      ∧ Forall (language_ok demo_dir demo_corpus) languages.
Proof.
  split; [vm_compute; reflexivity |].
  apply (proj1 (main_exit_status demo_dir demo_corpus fresh_process)).
  vm_compute. reflexivity.
Defined.

Lemma generate_stdout_witness :
  generate demo_dir demo_corpus fresh_process = (Ok (), demo_generated_body)
  ∧ stdout demo_generated_body
    = stdout fresh_process
      ++ (py "Creating stopwords data files in " ++ data_dir demo_dir
          ++ py "/" ++ [NEWLINE])
      ++ concat (map (created_line demo_corpus)
                     (sorted [py "german"; py "english"]))
      ++ ([NEWLINE] ++ py "Successfully generated "
          ++ decimal (length [py "german"; py "english"])
          ++ py " stopwords files." ++ [NEWLINE])
      ++ (py "Available languages: "
          ++ join_with (py ", ") (sorted [py "german"; py "english"])
          ++ [NEWLINE])
  ∧ stderr demo_generated_body = stderr fresh_process.
Proof.
  split; [vm_compute; reflexivity |].
  apply (generate_stdout demo_dir demo_corpus fresh_process
           demo_generated_body [py "german"; py "english"]).
  - vm_compute. reflexivity.
  - reflexivity.
Defined.
